(** * Citation search extension: key synthesis, source adapters and the
    progressive result aggregator (src/unnamed/part_004, the TypeScript
    extension source).

    JS strings are modelled as [list ascii] (the ASCII subset of UTF-16);
    literals are written with [lit "..."].  The regular expressions of the
    source are written out as the functions they compute: [\s] and
    [String.prototype.trim] both use the ASCII whitespace set
    {TAB, LF, VT, FF, CR, SPACE}. *)

From Stdlib Require Import Ascii String List Bool Arith Lia ZArith Permutation.
Import ListNotations.
Open Scope list_scope.

Definition js := list ascii.

Definition lit (s : string) : js := list_ascii_of_string s.

Definition nl : js := [ascii_of_nat 10].

(** ** Character classes *)

Definition is_ws (c : ascii) : bool :=
  let n := nat_of_ascii c in
  (n =? 32) || ((9 <=? n) && (n <=? 13)).

Definition is_digit (c : ascii) : bool :=
  let n := nat_of_ascii c in (48 <=? n) && (n <=? 57).

Definition is_upper (c : ascii) : bool :=
  let n := nat_of_ascii c in (65 <=? n) && (n <=? 90).

Definition is_lower (c : ascii) : bool :=
  let n := nat_of_ascii c in (97 <=? n) && (n <=? 122).

(** [A-Za-z0-9] *)
Definition is_alnum (c : ascii) : bool := is_upper c || is_lower c || is_digit c.

Definition is_comma (c : ascii) : bool := Ascii.eqb c ","%char.

(** [String.prototype.toLowerCase] on ASCII. *)
Definition to_lower_c (c : ascii) : ascii :=
  if is_upper c then ascii_of_nat (nat_of_ascii c + 32) else c.

Definition toLowerCase (s : js) : js := map to_lower_c s.

(** ** String helpers of the source *)

(** [String.prototype.trim]. *)
Fixpoint trim_start (s : js) : js :=
  match s with
  | [] => []
  | c :: r => if is_ws c then trim_start r else s
  end.

Definition trim (s : js) : js := rev (trim_start (rev (trim_start s))).

(** [s.split(/\s+/)]: the pieces between maximal whitespace runs, with
    the empty pieces JS keeps at either end ([""] for the empty string). *)
Fixpoint split_ws (s : js) : list js :=
  match s with
  | [] => [[]]
  | c :: r =>
      if is_ws c then
        match r with
        | d :: _ => if is_ws d then split_ws r else [] :: split_ws r
        | [] => [[]; []]
        end
      else match split_ws r with
           | t :: ts => (c :: t) :: ts
           | [] => [[c]]
           end
  end.

(** [s.split(",")[0]]: everything before the first comma. *)
Fixpoint before_comma (s : js) : js :=
  match s with
  | [] => []
  | c :: r => if is_comma c then [] else c :: before_comma r
  end.

(** Does the whole of [s] match [\s*\d{1,4}$] (the part of
    [/\s+\d{1,4}$/] after its first whitespace character)? *)
Fixpoint ws_digits (s : js) : bool :=
  match s with
  | [] => false
  | c :: r =>
      if is_ws c then ws_digits r
      else forallb is_digit s && (length s <=? 4)
  end.

(** The regex [/\s+\d{1,4}$/] matches at the start of [s]. *)
Definition suffix_match (s : js) : bool :=
  match s with
  | [] => false
  | c :: r => is_ws c && ws_digits r
  end.

(** [stripNumericSuffix = s => s.replace(/\s+\d{1,4}$/, "")]: cut [s] at
    the leftmost position where the regex matches. *)
Fixpoint stripNumericSuffix (s : js) : js :=
  match s with
  | [] => []
  | c :: r => if suffix_match s then [] else c :: stripNumericSuffix r
  end.

(** [clean = s => s.toLowerCase().replace(/[^a-z0-9]+/g, "")] *)
Definition clean (s : js) : js :=
  filter (fun c => is_lower c || is_digit c) (toLowerCase s).

(** [surname] (String(input) on a string is the identity). *)
Definition surname (input : js) : js :=
  let s := stripNumericSuffix (trim input) in
  if existsb is_comma s then trim (before_comma s)
  else let tokens := split_ws s in last tokens [].

(** [w.replace(/^[^A-Za-z0-9]+|[^A-Za-z0-9]+$/g, "")] *)
Fixpoint drop_nonalnum (s : js) : js :=
  match s with
  | [] => []
  | c :: r => if is_alnum c then s else drop_nonalnum r
  end.

Definition strip_punct (w : js) : js := rev (drop_nonalnum (rev (drop_nonalnum w))).

Definition STOPWORDS : list js := [lit "a"; lit "an"; lit "the"].

Definition js_eqb (a b : js) : bool := if list_eq_dec ascii_dec a b then true else false.

Definition is_stopword (w : js) : bool := existsb (js_eqb w) STOPWORDS.

Definition nonempty (w : js) : bool :=
  match w with [] => false | _ => true end.

Definition firstWord (title : js) : js :=
  let words := filter nonempty (map strip_punct (split_ws title)) in
  match find (fun w => negb (is_stopword (toLowerCase w))) words with
  | Some w => w
  | None => match words with w :: _ => w | [] => lit "paper" end
  end.

(** ** Papers and BibTeX synthesis *)

Inductive Source := arxiv | crossref | dblp.

Record Paper := mkPaper {
  source : Source;
  title : js;
  authors : list js;
  year : js;
  id : js;
  journal : option js
}.

(** [p.authors[0] ?? "anon"] *)
Definition firstAuthor (p : Paper) : js :=
  match authors p with a :: _ => a | [] => lit "anon" end.

Definition bibKey (p : Paper) : js :=
  clean (surname (firstAuthor p)) ++ year p ++ clean (firstWord (title p)).

(** [xs.join(sep)] *)
Fixpoint join (sep : js) (xs : list js) : js :=
  match xs with
  | [] => []
  | [x] => x
  | x :: r => x ++ sep ++ join sep r
  end.

Fixpoint startsWith (s pre : js) {struct pre} : bool :=
  match pre, s with
  | [], _ => true
  | c :: pr, d :: sr => Ascii.eqb c d && startsWith sr pr
  | _ :: _, [] => false
  end.

Definition get_or (o : option js) (d : js) : js :=
  match o with Some v => v | None => d end.

Record BibEntry := mkBib { key : js; text : js }.

Definition bibtex (p : Paper) : BibEntry :=
  let k := bibKey p in
  let auths := join (lit " and ") (authors p) in
  let base := lit "@article{" ++ k ++ lit "," ++ nl
    ++ lit "  title  = {" ++ title p ++ lit "}," ++ nl
    ++ lit "  author = {" ++ auths ++ lit "}," ++ nl
    ++ lit "  year   = {" ++ year p ++ lit "}," in
  match source p with
  | arxiv =>
      mkBib k (base ++ nl
        ++ lit "  journal= {arXiv}," ++ nl
        ++ lit "  eprint = {" ++ id p ++ lit "}" ++ nl
        ++ lit "}" ++ nl)
  | crossref =>
      mkBib k (base ++ nl
        ++ lit "  journal= {" ++ get_or (journal p) (lit "journal") ++ lit "}," ++ nl
        ++ lit "  doi    = {" ++ id p ++ lit "}" ++ nl
        ++ lit "}" ++ nl)
  | dblp =>
      let idField := if startsWith (id p) (lit "10.")
                     then lit "doi    = {" ++ id p ++ lit "}"
                     else lit "url    = {" ++ id p ++ lit "}" in
      mkBib k (base ++ nl
        ++ lit "  journal= {" ++ get_or (journal p) (lit "conference") ++ lit "}," ++ nl
        ++ lit "  " ++ idField ++ nl
        ++ lit "}" ++ nl)
  end.

(** Substring search, [s.includes(pat)]. *)
Fixpoint contains (s pat : js) : bool :=
  startsWith s pat || match s with [] => false | _ :: r => contains r pat end.

(** [title.split(/\s+/).map(strip).filter(Boolean)] in [firstWord]. *)
Definition title_words (t : js) : list js :=
  filter nonempty (map strip_punct (split_ws t)).

(** A string every whitespace character of which is a single space
    followed by a non-whitespace character or the end. *)
Fixpoint ws_collapsed (s : js) : bool :=
  match s with
  | [] => true
  | c :: r =>
      (negb (is_ws c) || (Ascii.eqb c " "%char && negb (is_ws (hd "a"%char r))))
      && ws_collapsed r
  end.

(** ** Source adapters *)

(** [s.replace(/\s+/g, " ")]: every maximal whitespace run becomes one space. *)
Fixpoint collapse_ws (s : js) : js :=
  match s with
  | [] => []
  | c :: r =>
      if is_ws c then
        match r with
        | d :: _ => if is_ws d then collapse_ws r else " "%char :: collapse_ws r
        | [] => [" "%char]
        end
      else c :: collapse_ws r
  end.

(** [s.split(sep)] for a non-empty string separator; the fuel is the length
    of [s], and every step consumes at least one character. *)
Fixpoint split_str_fuel (fuel : nat) (sep s : js) : list js :=
  match fuel with
  | O => [s]
  | S f =>
      match s with
      | [] => [[]]
      | c :: r =>
          if startsWith s sep then [] :: split_str_fuel f sep (skipn (length sep) s)
          else match split_str_fuel f sep r with
               | t :: ts => (c :: t) :: ts
               | [] => [[c]]
               end
      end
  end.

Definition split_str (sep s : js) : list js := split_str_fuel (length s) sep s.

(** An author as the sources deliver it: a plain string, or an object
    probed for [text], ["#text"], [name], [family] and [given]. *)
Inductive RawAuthor :=
| RA_str (s : js)
| RA_obj (a_text a_hash_text a_name a_family a_given : option js).

(** [toAuthorStr] *)
Definition toAuthorStr (a : RawAuthor) : js :=
  let raw := match a with
             | RA_str s => s
             | RA_obj t h n f g =>
                 match t with Some v => v | None =>
                 match h with Some v => v | None =>
                 match n with Some v => v | None =>
                   get_or f [] ++ lit " " ++ get_or g []
                 end end end
             end in
  stripNumericSuffix (trim raw).

(** One parsed Atom [entry] of the arXiv feed ([e.author[i].name] kept as
    the raw author). *)
Record ArxivEntry := mkArxivEntry {
  e_title : js;
  e_author_names : list RawAuthor;
  e_published : js;
  e_id : js
}.

Definition arxivPaper (e : ArxivEntry) : Paper :=
  {| source := arxiv;
     title := collapse_ws (trim (e_title e));
     authors := map toAuthorStr (e_author_names e);
     year := firstn 4 (e_published e);
     id := match nth_error (split_str (lit "/abs/") (e_id e)) 1 with
           | Some v => v
           | None => lit "undefined"
           end;
     journal := None |}.

Definition searchArxiv (entries : list ArxivEntry) : list Paper := map arxivPaper entries.

(** One Crossref [message.items] element; a [date-parts] year is kept as
    its decimal string ([.toString()]). *)
Record CrossrefItem := mkCrossrefItem {
  it_title : option (list js);
  it_author : option (list RawAuthor);
  it_issued_year : option js;
  it_created_year : option js;
  it_DOI : option js;
  it_container_title : option (list js)
}.

Definition crossrefPaper (it : CrossrefItem) : Paper :=
  {| source := crossref;
     title := match it_title it with Some (t :: _) => t | _ => lit "(untitled)" end;
     authors := map toAuthorStr (match it_author it with Some l => l | None => [] end);
     year := match it_issued_year it with Some y => y | None =>
             match it_created_year it with Some y => y | None => lit "????" end end;
     id := get_or (it_DOI it) [];
     journal := match it_container_title it with Some (j :: _) => Some j | _ => None end |}.

Definition searchCrossref (items : list CrossrefItem) : list Paper := map crossrefPaper items.

(** [info.authors?.author]: a single author object or an array. *)
Inductive DblpAuthors :=
| DA_one (a : RawAuthor)
| DA_many (l : list RawAuthor).

(** The [info] object of one DBLP hit. *)
Record DblpInfo := mkDblpInfo {
  i_title : option js;
  i_author : option DblpAuthors;
  i_year : option js;
  i_doi : option js;
  i_url : option js;
  i_venue : option js;
  i_journal : option js;
  i_booktitle : option js;
  i_type : option js
}.

(** [s.replace(/_/g, " ")] *)
Definition underscores_to_spaces (s : js) : js :=
  map (fun c => if Ascii.eqb c "_"%char then " "%char else c) s.

Definition dblpPaper (info : DblpInfo) : Paper :=
  {| source := dblp;
     title := collapse_ws (get_or (i_title info) (lit "(untitled)"));
     authors := match i_author info with
                | Some (DA_many l) => map toAuthorStr l
                | Some (DA_one a) => [toAuthorStr a]
                | None => []
                end;
     year := get_or (i_year info) (lit "????");
     id := match i_doi info with Some d => d | None =>
           match i_url info with Some u => u | None => [] end end;
     journal := match i_venue info with Some v => Some v | None =>
                match i_journal info with Some v => Some v | None =>
                match i_booktitle info with Some v => Some v | None =>
                  option_map underscores_to_spaces (i_type info)
                end end end |}.

Definition searchDblp (hits : list DblpInfo) : list Paper := map dblpPaper hits.

(** ** The progressive aggregator of [activate]

    The QuickPick holds the merged list and the [busy] flag; [pending]
    counts the sources not yet settled.  Each source's promise chain runs
    [.then] (append the batch) on success and [.finally(finish)] in every
    case; the JS event loop runs these callbacks one at a time, in any
    interleaving across sources. *)

Record Session := mkSession { pending : Z; items : list Paper; busy : bool }.

Definition init_session : Session := mkSession 3 [] true.

Inductive Event :=
| Ev_then (s : Source) (batch : list Paper)
| Ev_finally (s : Source).

(** [finish] *)
Definition finish (st : Session) : Session :=
  let p := (pending st - 1)%Z in
  if Z.eqb p 0 then mkSession p (items st) false
  else mkSession p (items st) (busy st).

Definition step (st : Session) (e : Event) : Session :=
  match e with
  | Ev_then _ batch => mkSession (pending st) (items st ++ batch) (busy st)
  | Ev_finally _ => finish st
  end.

Definition run (t : list Event) : Session := fold_left step t init_session.

(** The callbacks one source's promise chain schedules: on success
    [.then] then [.finally]; on failure only [.finally] ([.catch] shows
    a notification and leaves the session alone). *)
Definition script (s : Source) (outcome : option (list Paper)) : list Event :=
  match outcome with
  | Some batch => [Ev_then s batch; Ev_finally s]
  | None => [Ev_finally s]
  end.

(** Interleavings of three callback sequences, each kept in its order. *)
Inductive merge3 : list Event -> list Event -> list Event -> list Event -> Prop :=
| m3_nil : merge3 [] [] [] []
| m3_a e a b c t : merge3 a b c t -> merge3 (e :: a) b c (e :: t)
| m3_b e a b c t : merge3 a b c t -> merge3 a (e :: b) c (e :: t)
| m3_c e a b c t : merge3 a b c t -> merge3 a b (e :: c) (e :: t).

(** The adapters' own promises. A source whose search resolves runs its
    [.then] and then its [.finally(finish)] in the same turn; a source
    whose search rejects runs [.catch], whose arrow function returns the
    Thenable of [showErrorMessage], so the promise [.finally(finish)] is
    chained to settles, and [finish] runs, only once that notification is
    dismissed, in a later turn. *)
Inductive Act :=
| A_settle (s : Source) (outcome : option (list Paper))
| A_dismiss (s : Source).

(** The callbacks each turn runs. *)
Definition act_events (a : Act) : list Event :=
  match a with
  | A_settle s (Some batch) => [Ev_then s batch; Ev_finally s]
  | A_settle _ None => []
  | A_dismiss s => [Ev_finally s]
  end.

(** One source's turns, in order. *)
Definition acts (s : Source) (outcome : option (list Paper)) : list Act :=
  match outcome with
  | Some batch => [A_settle s (Some batch)]
  | None => [A_settle s None; A_dismiss s]
  end.

(** Interleavings of three sources' turns, each kept in its order. *)
Inductive interleave3 : list Act -> list Act -> list Act -> list Act -> Prop :=
| i3_nil : interleave3 [] [] [] []
| i3_a x a b c t : interleave3 a b c t -> interleave3 (x :: a) b c (x :: t)
| i3_b x a b c t : interleave3 a b c t -> interleave3 a (x :: b) c (x :: t)
| i3_c x a b c t : interleave3 a b c t -> interleave3 a b (x :: c) (x :: t).

Definition run_acts (t : list Act) : Session := run (flat_map act_events t).

(** The sources whose search promise has settled (resolved or rejected). *)
Definition adapters_settled (t : list Act) : list Source :=
  flat_map (fun a => match a with A_settle s _ => [s] | A_dismiss _ => [] end) t.

(** Source [s] has settled with [outcome] and, if it failed, its error
    notification has been dismissed. *)
Definition source_done (s : Source) (outcome : option (list Paper)) (p : list Act) : Prop :=
  In (A_settle s outcome) p /\ (outcome = None -> In (A_dismiss s) p).

(** The sources whose [.finally] has run in a trace. *)
Definition settled (t : list Event) : list Source :=
  flat_map (fun e => match e with Ev_finally s => [s] | Ev_then _ _ => [] end) t.

Definition all_settled (t : list Event) : Prop :=
  In arxiv (settled t) /\ In crossref (settled t) /\ In dblp (settled t).

Definition outcome_len (o : option (list Paper)) : nat :=
  match o with Some b => length b | None => 0 end.

(** The QuickPick's placeholder next to the session: [finish] sets it,
    when [pending] reaches 0, from the number of items then shown. *)
Record Pick := mkPick { qp : Session; placeholder : js }.

Definition init_pick : Pick := mkPick init_session (lit "Searching arXiv, DBLP & Crossref…").

Definition pick_step (ps : Pick) (e : Event) : Pick :=
  match e with
  | Ev_then _ _ => mkPick (step (qp ps) e) (placeholder ps)
  | Ev_finally _ =>
      let st := finish (qp ps) in
      if Z.eqb (pending st) 0
      then mkPick st (match items st with
                      | [] => lit "No results found"
                      | _ => lit "Select a paper"
                      end)
      else mkPick st (placeholder ps)
  end.

Definition pick_run (t : list Event) : Pick := fold_left pick_step t init_pick.

(** [toItems]: one QuickPick entry per paper, labelled with the title and
    described by the authors, the year and the source's display name. *)
Record PickItem := mkItem { label : js; detail : js; paper : Paper }.

Definition source_tag (s : Source) : js :=
  match s with
  | arxiv => lit "arXiv"
  | dblp => lit "DBLP"
  | crossref => lit "Crossref"
  end.

Definition toItem (p : Paper) : PickItem :=
  mkItem (title p)
    (join (lit ", ") (authors p) ++ lit " (" ++ year p ++ lit ") [" ++ source_tag (source p) ++ lit "]")
    p.

Definition toItems (papers : list Paper) : list PickItem := map toItem papers.

(** [onDidAccept]: the text inserted at the end of the chosen [.bib] file
    ([edit.insert(bibUri, ..., "\n" + text)]) and the key the confirmation
    message reports ([`Added ${key} to ...`]). *)
Definition inserted_text (sel : PickItem) : js := nl ++ text (bibtex (paper sel)).

Definition reported_key (sel : PickItem) : js := key (bibtex (paper sel)).

(** * Properties *)

(** ** String lemmas *)

Lemma startsWith_app (a b : js) : startsWith (a ++ b) a = true.
Proof.
  induction a as [|c a IH]; simpl; [reflexivity|].
  rewrite Ascii.eqb_refl, IH; reflexivity.
Qed.

Lemma startsWith_app3 (a b c d : js) : startsWith (a ++ b ++ c ++ d) (a ++ b ++ c) = true.
Proof.
  replace (a ++ b ++ c ++ d) with ((a ++ b ++ c) ++ d) by (rewrite <- !app_assoc; reflexivity).
  apply startsWith_app.
Qed.

Lemma contains_app_l (a x pat : js) :
  contains x pat = true -> contains (a ++ x) pat = true.
Proof.
  intros H; induction a as [|c a IH]; simpl; [exact H|].
  rewrite IH, orb_true_r; reflexivity.
Qed.

Lemma contains_mid (a b c : js) : contains (a ++ b ++ c) b = true.
Proof.
  apply contains_app_l. destruct b; simpl.
  - destruct c; reflexivity.
  - rewrite Ascii.eqb_refl, startsWith_app; reflexivity.
Qed.

Lemma ws_not_digit (c : ascii) : is_ws c = true -> is_digit c = false.
Proof.
  unfold is_ws, is_digit; intros H.
  apply orb_true_iff in H as [H|H].
  - apply Nat.eqb_eq in H; rewrite H; reflexivity.
  - apply andb_true_iff in H as [_ H]; apply Nat.leb_le in H.
    destruct (48 <=? nat_of_ascii c) eqn:E; [|reflexivity].
    apply Nat.leb_le in E; lia.
Qed.

Lemma trim_start_suffix (s : js) : exists pre, s = pre ++ trim_start s /\ forallb is_ws pre = true.
Proof.
  induction s as [|c r IH]; simpl.
  - exists []; auto.
  - destruct (is_ws c) eqn:E.
    + destruct IH as [pre [H1 H2]]. exists (c :: pre); simpl; rewrite E, H2; split; [congruence | reflexivity].
    + exists []; auto.
Qed.

Lemma trim_start_head (s : js) : trim_start s = [] \/ is_ws (hd " "%char (trim_start s)) = false.
Proof.
  induction s as [|c r IH]; simpl; auto.
  destruct (is_ws c) eqn:E; auto.
Qed.

Lemma last_app_nonnil {A} (a b : list A) (d : A) : b <> [] -> last (a ++ b) d = last b d.
Proof.
  intros Hb; induction a as [|x a IH]; [reflexivity|].
  cbn [app last]. destruct (a ++ b) eqn:E.
  - apply app_eq_nil in E as [_ E]; contradiction.
  - exact IH.
Qed.

Lemma hd_rev_last {A} (l : list A) (d : A) : hd d (rev l) = last l d.
Proof.
  induction l as [|x l IH] using rev_ind; simpl; [reflexivity|].
  rewrite rev_app_distr; simpl. rewrite last_app_nonnil by discriminate; reflexivity.
Qed.

Lemma last_rev_hd {A} (l : list A) (d : A) : last (rev l) d = hd d l.
Proof.
  rewrite <- (rev_involutive l) at 2. rewrite hd_rev_last; reflexivity.
Qed.

(** A trimmed string is empty or starts and ends with non-whitespace. *)
Lemma trim_ends (s : js) :
  trim s = [] \/
  (is_ws (hd " "%char (trim s)) = false /\ is_ws (last (trim s) " "%char) = false).
Proof.
  unfold trim.
  set (y := trim_start s).
  set (x := trim_start (rev y)).
  destruct (trim_start_head (rev y)) as [H|H]; fold x in H.
  - left; rewrite H; reflexivity.
  - right. rewrite last_rev_hd; split; [|exact H].
    rewrite hd_rev_last.
    destruct (trim_start_suffix (rev y)) as [pre [Hp _]]; fold x in Hp.
    assert (Hx : x <> []) by (intro E; rewrite E in H; discriminate).
    assert (Ey : last x " "%char = hd " "%char y).
    { rewrite <- last_rev_hd, Hp, last_app_nonnil by exact Hx; reflexivity. }
    rewrite Ey.
    destruct (trim_start_head s) as [Hs|Hs]; fold y in Hs; [|exact Hs].
    exfalso; apply Hx; unfold x; rewrite Hs; reflexivity.
Qed.

(** ** [stripNumericSuffix] *)

Lemma ws_digits_after_nonws (a : js) (x : ascii) (b : js) :
  ws_digits (a ++ x :: b) = true -> is_ws x = false -> forallb is_digit b = true.
Proof.
  intros H Hx. induction a as [|c a IH]; simpl in H.
  - rewrite Hx in H. apply andb_true_iff in H as [H _]; simpl in H.
    apply andb_true_iff in H as [_ H]; exact H.
  - destruct (is_ws c); [exact (IH H)|].
    apply andb_true_iff in H as [H _]; simpl in H.
    apply andb_true_iff in H as [_ H].
    rewrite forallb_app in H; simpl in H.
    apply andb_true_iff in H as [_ H]; apply andb_true_iff in H as [_ H]; exact H.
Qed.

Lemma ws_digits_intro (w ds : js) :
  forallb is_ws w = true -> ds <> [] -> forallb is_digit ds = true -> length ds <= 4 ->
  ws_digits (w ++ ds) = true.
Proof.
  intros Hw Hne Hd Hl. induction w as [|c w IH]; simpl.
  - destruct ds as [|d ds]; [congruence|].
    simpl in Hd; apply andb_true_iff in Hd as [Hd1 Hd2].
    destruct (is_ws d) eqn:E; [rewrite (ws_not_digit d E) in Hd1; discriminate|].
    cbn [app ws_digits]. rewrite E. cbn [forallb]. rewrite Hd1, Hd2.
    apply Nat.leb_le; exact Hl.
  - simpl in Hw; apply andb_true_iff in Hw as [Hc Hw]; rewrite Hc; exact (IH Hw).
Qed.

(** [stripNumericSuffix] removes a trailing group of whitespace followed by
    one to four digits, cut at the start of the whitespace run. *)
Lemma strip_suffix_spec (pre w ds : js) :
  w <> [] -> forallb is_ws w = true ->
  ds <> [] -> forallb is_digit ds = true -> length ds <= 4 ->
  (pre = [] \/ is_ws (last pre " "%char) = false) ->
  stripNumericSuffix (pre ++ w ++ ds) = pre.
Proof.
  intros Hw Hws Hds Hd Hl Hpre.
  induction pre as [|c pre IH].
  - destruct w as [|w0 w]; [congruence|].
    simpl in Hws; apply andb_true_iff in Hws as [H0 Hws].
    simpl. rewrite H0, (ws_digits_intro w ds Hws Hds Hd Hl); reflexivity.
  - assert (Hpre' : pre = [] \/ is_ws (last pre " "%char) = false).
    { destruct pre as [|p pre]; [left; reflexivity|right].
      destruct Hpre as [Hpre|Hpre]; [discriminate|exact Hpre]. }
    cbn [app stripNumericSuffix].
    replace (suffix_match (c :: pre ++ w ++ ds)) with false.
    + rewrite (IH Hpre'); reflexivity.
    + simpl. destruct (is_ws c) eqn:Ec; [|reflexivity]. simpl.
      destruct pre as [|p pre].
      * destruct Hpre as [Hpre|Hpre]; [discriminate|simpl in Hpre; congruence].
      * destruct Hpre' as [Hpre'|Hpre']; [discriminate|].
        destruct (ws_digits ((p :: pre) ++ w ++ ds)) eqn:E; [|reflexivity].
        exfalso.
        destruct (@exists_last _ (p :: pre) ltac:(discriminate)) as [P [y Ey]].
        rewrite Ey in E, Hpre'. rewrite last_app_nonnil in Hpre' by discriminate.
        simpl in Hpre'. rewrite <- app_assoc in E; simpl in E.
        pose proof (ws_digits_after_nonws P y (w ++ ds) E Hpre') as Hall.
        destruct w as [|w0 w]; [congruence|].
        simpl in Hws, Hall. apply andb_true_iff in Hws as [Hw0 _].
        apply andb_true_iff in Hall as [Hall _].
        rewrite (ws_not_digit w0 Hw0) in Hall; discriminate.
Qed.

Lemma strip_ends (s : js) :
  is_ws (last s " "%char) = false ->
  stripNumericSuffix s = [] \/ is_ws (last (stripNumericSuffix s) " "%char) = false.
Proof.
  induction s as [|c r IH]; intros H; [left; reflexivity|].
  cbn [stripNumericSuffix].
  destruct (suffix_match (c :: r)) eqn:Em; [left; reflexivity|right].
  destruct r as [|d r'].
  - exact H.
  - assert (Hr : is_ws (last (d :: r') " "%char) = false) by exact H.
    destruct (IH Hr) as [E|E].
    + assert (Hm : suffix_match (d :: r') = true).
      { cbn [stripNumericSuffix] in E. destruct (suffix_match (d :: r')); [reflexivity|discriminate]. }
      rewrite E. simpl. destruct (is_ws c) eqn:Ec; [|reflexivity].
      simpl in Em, Hm. rewrite Ec in Em. simpl in Em.
      apply andb_true_iff in Hm as [Hd Hm]. rewrite Hd, Hm in Em; discriminate.
    + remember (stripNumericSuffix (d :: r')) as t.
      destruct t as [|t0 t]; [simpl in E; discriminate|].
      exact E.
Qed.

(** ** [split(/\s+/)] *)

Lemma split_ws_nonnil (s : js) : split_ws s <> [].
Proof.
  induction s as [|c r IH]; simpl; [discriminate|].
  destruct (is_ws c).
  - destruct r as [|d r]; [discriminate|]. destruct (is_ws d); [exact IH|discriminate].
  - destruct (split_ws r); discriminate.
Qed.

Lemma split_ws_no_ws (s w : js) :
  In w (split_ws s) -> forallb (fun c => negb (is_ws c)) w = true.
Proof.
  revert w; induction s as [|c r IH]; intros w Hin; simpl in Hin.
  - destruct Hin as [<-|[]]; reflexivity.
  - destruct (is_ws c) eqn:Ec.
    + destruct r as [|d r].
      * destruct Hin as [<-|[<-|[]]]; reflexivity.
      * destruct (is_ws d).
        -- exact (IH w Hin).
        -- destruct Hin as [<-|Hin]; [reflexivity|exact (IH w Hin)].
    + destruct (split_ws r) as [|t ts] eqn:E.
      * destruct Hin as [<-|[]]; simpl; rewrite Ec; reflexivity.
      * destruct Hin as [<-|Hin].
        -- simpl; rewrite Ec; simpl. apply IH; rewrite ?E; left; reflexivity.
        -- apply IH; rewrite ?E; right; exact Hin.
Qed.

Lemma last_cons_nonnil {A} (x : A) (l : list A) (d : A) : l <> [] -> last (x :: l) d = last l d.
Proof. destruct l; [congruence|reflexivity]. Qed.

Lemma split_ws_last_nonempty (s : js) :
  s <> [] -> is_ws (last s " "%char) = false -> nonempty (last (split_ws s) []) = true.
Proof.
  induction s as [|c r IH]; intros Hne H; [congruence|].
  simpl. destruct (is_ws c) eqn:Ec.
  - destruct r as [|d r]; [simpl in H; congruence|].
    assert (Hr : is_ws (last (d :: r) " "%char) = false) by exact H.
    destruct (is_ws d).
    + exact (IH ltac:(discriminate) Hr).
    + rewrite last_cons_nonnil by apply split_ws_nonnil. exact (IH ltac:(discriminate) Hr).
  - destruct r as [|d r]; [reflexivity|].
    assert (Hr : is_ws (last (d :: r) " "%char) = false) by exact H.
    specialize (IH ltac:(discriminate) Hr).
    destruct (split_ws (d :: r)) as [|t ts]; [reflexivity|].
    destruct ts as [|t' ts]; [reflexivity|].
    rewrite last_cons_nonnil by discriminate. exact IH.
Qed.

Lemma last_filter_nonempty (l : list js) :
  nonempty (last l []) = true -> last (filter nonempty l) [] = last l [].
Proof.
  induction l as [|x l IH]; intros H; [discriminate|].
  destruct l as [|y l].
  - simpl in *. rewrite H; reflexivity.
  - change (last (x :: y :: l) []) with (last (y :: l) []) in *.
    specialize (IH H).
    assert (Hf : filter nonempty (y :: l) <> []).
    { intro E; rewrite E in IH. rewrite <- IH in H; discriminate. }
    change (filter nonempty (x :: y :: l)) with
      (if nonempty x then x :: filter nonempty (y :: l) else filter nonempty (y :: l)).
    destruct (nonempty x); [rewrite last_cons_nonnil by exact Hf|]; exact IH.
Qed.

(** ** [surname] *)

Lemma stripped_trim_ends (input : js) :
  stripNumericSuffix (trim input) = [] \/
  is_ws (last (stripNumericSuffix (trim input)) " "%char) = false.
Proof.
  destruct (trim_ends input) as [E|[_ E]].
  - left; rewrite E; reflexivity.
  - exact (strip_ends _ E).
Qed.

Lemma split_last_token (s : js) :
  s = [] \/ is_ws (last s " "%char) = false ->
  last (split_ws s) [] = last (filter nonempty (split_ws s)) [].
Proof.
  intros [->|H]; [reflexivity|].
  destruct s as [|c r]; [reflexivity|].
  symmetry; apply last_filter_nonempty, split_ws_last_nonempty; [discriminate|exact H].
Qed.

(** [surname] in words: strip the numeric suffix of the trimmed input;
    with a comma, the trimmed part before the first comma, otherwise the
    last non-empty whitespace-delimited token. *)
Lemma surname_eq (input : js) :
  surname input =
  let s := stripNumericSuffix (trim input) in
  if existsb is_comma s then trim (before_comma s)
  else last (filter nonempty (split_ws s)) [].
Proof.
  unfold surname; cbv zeta.
  destruct (existsb is_comma _); [reflexivity|].
  apply split_last_token, stripped_trim_ends.
Qed.

Lemma trim_start_snoc_nonws (l : js) (c : ascii) :
  is_ws c = false -> trim_start (l ++ [c]) <> [].
Proof.
  intros Hc; induction l as [|x l IH]; simpl.
  - rewrite Hc; discriminate.
  - destruct (is_ws x); [exact IH|discriminate].
Qed.

Lemma trim_cons_nonws (c : ascii) (r : js) : is_ws c = false -> trim (c :: r) <> [].
Proof.
  intros Hc. unfold trim. cbn [trim_start]. rewrite Hc. simpl.
  intro E. apply (f_equal (@rev ascii)) in E. rewrite rev_involutive in E.
  exact (trim_start_snoc_nonws _ _ Hc E).
Qed.

(** ** [firstWord] *)

Lemma drop_nonalnum_head (s : js) :
  drop_nonalnum s = [] \/ is_alnum (hd " "%char (drop_nonalnum s)) = true.
Proof.
  induction s as [|c r IH]; simpl; auto.
  destruct (is_alnum c) eqn:E; auto.
Qed.

Lemma drop_nonalnum_suffix (s : js) : exists pre, s = pre ++ drop_nonalnum s.
Proof.
  induction s as [|c r [pre IH]]; simpl; [exists []; reflexivity|].
  destruct (is_alnum c); [exists []; reflexivity|].
  exists (c :: pre); simpl; congruence.
Qed.

(** A word left by [strip_punct] is empty or starts and ends with [A-Za-z0-9]. *)
Lemma strip_punct_ends (w : js) :
  strip_punct w = [] \/
  (is_alnum (hd " "%char (strip_punct w)) = true /\
   is_alnum (last (strip_punct w) " "%char) = true).
Proof.
  unfold strip_punct.
  set (y := drop_nonalnum w).
  set (x := drop_nonalnum (rev y)).
  destruct (drop_nonalnum_head (rev y)) as [H|H]; fold x in H.
  - left; rewrite H; reflexivity.
  - right. rewrite last_rev_hd; split; [|exact H].
    rewrite hd_rev_last.
    assert (Hx : x <> []) by (intro E; rewrite E in H; discriminate).
    destruct (drop_nonalnum_suffix (rev y)) as [pre Hp]; fold x in Hp.
    assert (Ey : last x " "%char = hd " "%char y).
    { rewrite <- last_rev_hd, Hp, last_app_nonnil by exact Hx; reflexivity. }
    rewrite Ey.
    destruct (drop_nonalnum_head w) as [Hs|Hs]; fold y in Hs; [|exact Hs].
    exfalso; apply Hx; unfold x; rewrite Hs; reflexivity.
Qed.

Definition is_stop_word (w : js) : bool := is_stopword (toLowerCase w).

Lemma forallb_negb_negb (l : list js) :
  forallb is_stop_word l = forallb (fun v => negb (negb (is_stopword (toLowerCase v)))) l.
Proof.
  induction l as [|v l IH]; simpl; [reflexivity|].
  rewrite negb_involutive, IH; reflexivity.
Qed.

Lemma find_cases {A} (f : A -> bool) (l : list A) :
  (exists pre x post, l = pre ++ x :: post /\ forallb (fun v => negb (f v)) pre = true /\
     f x = true /\ find f l = Some x) \/
  (forallb (fun v => negb (f v)) l = true /\ find f l = None).
Proof.
  induction l as [|y l IH]; simpl; [right; auto|].
  destruct (f y) eqn:Ey.
  - left; exists [], y, l; simpl; auto.
  - destruct IH as [[pre [x [post [H1 [H2 [H3 H4]]]]]]|[H1 H2]].
    + left; exists (y :: pre), x, post.
      split; [simpl; congruence|].
      split; [simpl; rewrite ?Ey, ?H2; reflexivity|auto].
    + right; simpl; rewrite ?Ey, ?H1; auto.
Qed.

(** ** Key and record synthesis *)

Definition tong_paper : Paper :=
  mkPaper arxiv (lit "Diffusion Models Beat GANs") [lit "Tong, Alex"]
          (lit "2024") (lit "2401.00001") None.

(** C1: the key is [clean(surname(authors[0] ?? "anon")) + year +
    clean(firstWord(title))]; with no authors the surname fragment is
    [clean("anon")]; the arXiv record of Tong (2024) gets the key
    ["tong2024diffusion"], an [eprint = {2401.00001}] field and no DOI. *)
Theorem bibKey_formula :
  (forall p : Paper,
     key (bibtex p) =
     clean (surname (match authors p with a :: _ => a | [] => lit "anon" end))
       ++ year p ++ clean (firstWord (title p))) /\
  (forall p : Paper, authors p = [] ->
     key (bibtex p) = clean (lit "anon") ++ year p ++ clean (firstWord (title p))) /\
  key (bibtex tong_paper) = lit "tong2024diffusion" /\
  contains (text (bibtex tong_paper)) (lit "eprint = {2401.00001}") = true /\
  contains (text (bibtex tong_paper)) (lit "doi") = false.
Proof.
  split; [|split; [|split; [|split]]].
  - intros p; unfold bibtex; destruct (source p); reflexivity.
  - intros p Hp; unfold bibtex, bibKey, firstAuthor.
    destruct (source p); rewrite Hp; reflexivity.
  - vm_compute; reflexivity.
  - vm_compute; reflexivity.
  - vm_compute; reflexivity.
Qed.

Lemma bibKey_formula_witness :
  authors (mkPaper crossref (lit "On Graphs") [] (lit "1999") [] None) = [] /\
  key (bibtex (mkPaper crossref (lit "On Graphs") [] (lit "1999") [] None)) = lit "anon1999on".
Proof.
  split; [reflexivity|].
  destruct bibKey_formula as [_ [H _]].
  rewrite (H (mkPaper crossref (lit "On Graphs") [] (lit "1999") [] None) eq_refl).
  vm_compute; reflexivity.
Defined.

(** C8: synthesis has no failure path: every record yields a
    (key, recordText) pair whose text opens with [@article{key,]. *)
Theorem bibtex_total :
  forall p : Paper, exists k t,
    bibtex p = mkBib k t /\ k = bibKey p /\ startsWith t (lit "@article{" ++ k ++ lit ",") = true.
Proof.
  intros p. exists (key (bibtex p)), (text (bibtex p)).
  unfold bibtex; destruct (source p); cbn [key text];
    (split; [reflexivity|split; [reflexivity|]]);
    rewrite <- !app_assoc; apply startsWith_app3.
Qed.

(** C3 (counterexample): the title ["The"] consists of stopwords only, yet
    [firstWord] returns ["The"], not ["paper"]. *)
Lemma firstWord_all_stopwords_cex :
  title_words (lit "The") = [lit "The"] /\
  forallb is_stop_word (title_words (lit "The")) = true /\
  firstWord (lit "The") <> lit "paper".
Proof.
  split; [vm_compute; reflexivity|split; [vm_compute; reflexivity|]].
  intro H; vm_compute in H; discriminate H.
Qed.

(** C3 (amended): the words of the title are its whitespace-separated
    tokens with leading and trailing non-[A-Za-z0-9] characters removed and
    empty ones dropped; each starts and ends with a letter or digit.
    [firstWord] returns the first word whose lowercase form is not a
    stopword; if every word is a stopword it returns the first word; it
    returns ["paper"] only when there is no word (e.g. the empty title). *)
Theorem firstWord_amended :
  (forall t w, In w (title_words t) ->
     w <> [] /\ is_alnum (hd " "%char w) = true /\ is_alnum (last w " "%char) = true) /\
  (forall t,
     (exists pre w post, title_words t = pre ++ w :: post /\
        forallb is_stop_word pre = true /\ is_stop_word w = false /\ firstWord t = w) \/
     (title_words t <> [] /\ forallb is_stop_word (title_words t) = true /\
        firstWord t = hd [] (title_words t)) \/
     (title_words t = [] /\ firstWord t = lit "paper")) /\
  firstWord [] = lit "paper" /\
  firstWord (lit "The Attention Is All You Need") = lit "Attention".
Proof.
  split; [|split; [|split]].
  - intros t w Hin. unfold title_words in Hin.
    apply filter_In in Hin as [Hin Hne].
    apply in_map_iff in Hin as [w0 [<- _]].
    destruct (strip_punct_ends w0) as [E|[E1 E2]].
    + rewrite E in Hne; discriminate.
    + split; [intro E; rewrite E in Hne; discriminate|auto].
  - intros t. unfold firstWord. fold (title_words t).
    destruct (find_cases (fun w => negb (is_stopword (toLowerCase w))) (title_words t))
      as [[pre [w [post [H1 [H2 [H3 H4]]]]]]|[H1 H2]].
    + left. exists pre, w, post. rewrite H4. split; [exact H1|].
      split; [|split; [apply negb_true_iff; exact H3|reflexivity]].
      rewrite <- H2; apply forallb_negb_negb.
    + rewrite H2. right.
      assert (Hs : forallb is_stop_word (title_words t) = true).
      { rewrite <- H1; apply forallb_negb_negb. }
      destruct (title_words t) as [|w ws] eqn:E.
      * right; split; reflexivity.
      * left; split; [discriminate|split; [exact Hs|reflexivity]].
  - reflexivity.
  - vm_compute; reflexivity.
Qed.

(** C6: [surname] strips the numeric suffix of the trimmed input (a
    whitespace run and one to four digits at the end, cut where the run
    starts), then returns the trimmed part before the first comma if there
    is a comma, otherwise the last non-empty whitespace-delimited token;
    ["Wang, Jianxin"], ["Jianxin Wang"] and ["Jianxin Wang 3"] give ["Wang"]. *)
Theorem surname_rule :
  (forall pre w ds : js,
     w <> [] -> forallb is_ws w = true ->
     ds <> [] -> forallb is_digit ds = true -> length ds <= 4 ->
     (pre = [] \/ is_ws (last pre " "%char) = false) ->
     stripNumericSuffix (pre ++ w ++ ds) = pre) /\
  (forall input : js,
     let s := stripNumericSuffix (trim input) in
     surname input =
     if existsb is_comma s then trim (before_comma s)
     else last (filter nonempty (split_ws s)) []) /\
  (forall s w : js, In w (split_ws s) -> forallb (fun c => negb (is_ws c)) w = true) /\
  surname (lit "Wang, Jianxin") = lit "Wang" /\
  surname (lit "Jianxin Wang") = lit "Wang" /\
  surname (lit "Jianxin Wang 3") = lit "Wang".
Proof.
  split; [exact strip_suffix_spec|].
  split; [exact surname_eq|].
  split; [exact split_ws_no_ws|].
  split; [|split]; vm_compute; reflexivity.
Qed.

Lemma surname_rule_witness :
  stripNumericSuffix (lit "Jianxin Wang" ++ lit " " ++ lit "3") = lit "Jianxin Wang".
Proof.
  destruct surname_rule as [H _].
  apply H; try discriminate; try (vm_compute; reflexivity).
  - auto.
  - right; vm_compute; reflexivity.
Defined.

Lemma surname_nonempty_core (input : js)
  (Hne : trim input <> []) (Hc : is_comma (hd " "%char (trim input)) = false) :
  surname input <> [].
Proof.
  destruct (trim_ends input) as [E|[Hh Hl]]; [contradiction|].
  pose proof (stripped_trim_ends input) as Hs.
  unfold surname.
  destruct (trim input) as [|c r] eqn:Et; [contradiction|].
  simpl in Hh, Hc.
  assert (Es : stripNumericSuffix (c :: r) = c :: stripNumericSuffix r).
  { cbn [stripNumericSuffix suffix_match]. rewrite Hh; reflexivity. }
  rewrite Es in *.
  destruct (existsb is_comma (c :: stripNumericSuffix r)).
  - cbn [before_comma]. rewrite Hc. apply trim_cons_nonws; exact Hh.
  - destruct Hs as [Hs|Hs]; [discriminate|].
    assert (Hn' : c :: stripNumericSuffix r <> []) by discriminate.
    pose proof (split_ws_last_nonempty _ Hn' Hs) as Hn.
    intro E; rewrite E in Hn; discriminate.
Qed.

Definition jane_anon : Paper :=
  mkPaper crossref (lit "Anonymity Online") [lit "Jane Anon"] (lit "2020") (lit "10.1/x") None.

(** C5 (counterexample): the non-empty input ["  "] (whitespace only) and
    the input [", Jianxin"] both give the empty surname; and a record with
    the non-empty author list ["Jane Anon"] gets the same surname fragment
    ["anon"] as a record with no authors. *)
Lemma surname_empty_cex :
  lit "  " <> [] /\ surname (lit "  ") = [] /\
  surname (lit ", Jianxin") = [] /\
  authors jane_anon <> [] /\ clean (surname (firstAuthor jane_anon)) = lit "anon".
Proof.
  split; [discriminate|split; [|split; [|split; [discriminate|]]]]; vm_compute; reflexivity.
Qed.

(** C5 (amended): [surname] returns the empty string exactly when the
    trimmed input is empty or starts with a comma, and a non-empty string
    otherwise; with an empty author list the key's surname fragment is
    [clean("anon")] = ["anon"], but that fragment does not show the list
    was empty (see ["Jane Anon"] above). *)
Theorem surname_nonempty (input : js) :
  (surname input = [] <-> trim input = [] \/ is_comma (hd " "%char (trim input)) = true) /\
  (forall p : Paper, authors p = [] -> clean (surname (firstAuthor p)) = lit "anon").
Proof.
  split.
  - split.
    + intros E.
      destruct (trim input) as [|c r] eqn:Et; [left; reflexivity|right].
      destruct (is_comma (hd " "%char (c :: r))) eqn:Ec; [reflexivity|].
      exfalso. refine (surname_nonempty_core input _ _ E); rewrite Et; [discriminate|exact Ec].
    + unfold surname. intros [E|E]; rewrite ?E.
      * reflexivity.
      * destruct (trim input) as [|c r]; [reflexivity|].
        simpl in E.
        assert (Hw : is_ws c = false).
        { apply Ascii.eqb_eq in E. subst c. reflexivity. }
        assert (Es : stripNumericSuffix (c :: r) = c :: stripNumericSuffix r).
        { cbn [stripNumericSuffix suffix_match]. rewrite Hw; reflexivity. }
        rewrite Es. cbn [existsb before_comma]. rewrite E. reflexivity.
  - intros p Hp. unfold firstAuthor. rewrite Hp. vm_compute. reflexivity.
Qed.

(** ** DBLP records: DOI or URL field *)

Lemma contains_here (a b c d : js) : contains (a ++ b ++ c ++ d) (a ++ b ++ c) = true.
Proof.
  destruct (a ++ b ++ c ++ d) eqn:E; simpl;
    rewrite <- E, startsWith_app3; reflexivity.
Qed.

Lemma contains_here1 (a d : js) : contains (a ++ d) a = true.
Proof. apply (contains_mid []). Qed.

Ltac find_field :=
  rewrite <- ?app_assoc;
  repeat (first [apply contains_here | apply contains_here1 | apply contains_app_l]).

(** C7: a DBLP record's text carries [doi = {id}] when the identifier
    starts with ["10."] and [url = {id}] otherwise. *)
Theorem dblp_doi_or_url (p : Paper) (Hs : source p = dblp) :
  (startsWith (id p) (lit "10.") = true ->
     contains (text (bibtex p)) (lit "doi    = {" ++ id p ++ lit "}") = true) /\
  (startsWith (id p) (lit "10.") = false ->
     contains (text (bibtex p)) (lit "url    = {" ++ id p ++ lit "}") = true).
Proof.
  unfold bibtex; cbv zeta; rewrite Hs; cbn [text].
  split; intros H; rewrite H; find_field.
Qed.

Definition dblp_rec (ident : js) : Paper :=
  mkPaper dblp (lit "Some Result") [lit "Ada Lovelace"] (lit "2020") ident None.

Lemma dblp_doi_or_url_witness :
  contains (text (bibtex (dblp_rec (lit "10.1145/3.4")))) (lit "doi    = {10.1145/3.4}") = true /\
  contains (text (bibtex (dblp_rec (lit "https://dblp.org/rec/x"))))
           (lit "url    = {https://dblp.org/rec/x}") = true.
Proof.
  split.
  - exact (proj1 (dblp_doi_or_url (dblp_rec (lit "10.1145/3.4")) eq_refl) eq_refl).
  - exact (proj2 (dblp_doi_or_url (dblp_rec (lit "https://dblp.org/rec/x")) eq_refl) eq_refl).
Defined.

(** C10: a DBLP hit with neither [doi] nor [url] gets the empty
    identifier, and its record text takes the URL branch with an empty
    [url = {}] field. *)
Theorem dblp_no_doi_no_url (info : DblpInfo)
  (Hd : i_doi info = None) (Hu : i_url info = None) :
  id (dblpPaper info) = [] /\
  startsWith (id (dblpPaper info)) (lit "10.") = false /\
  contains (text (bibtex (dblpPaper info))) (lit "url    = {}") = true.
Proof.
  assert (Hid : id (dblpPaper info) = []) by (unfold dblpPaper; cbn [id]; rewrite Hd, Hu; reflexivity).
  split; [exact Hid|split; [rewrite Hid; reflexivity|]].
  change (lit "url    = {}") with (lit "url    = {" ++ [] ++ lit "}").
  rewrite <- Hid.
  exact (proj2 (dblp_doi_or_url (dblpPaper info) eq_refl) ltac:(rewrite Hid; reflexivity)).
Qed.

Definition bare_hit : DblpInfo :=
  mkDblpInfo (Some (lit "A Note")) (Some (DA_one (RA_obj (Some (lit "Jianxin Wang 0003")) None None None None)))
             (Some (lit "2021")) None None (Some (lit "CoRR")) None None (Some (lit "Informal_Publications")).

Lemma dblp_no_doi_no_url_witness :
  id (dblpPaper bare_hit) = [] /\
  contains (text (bibtex (dblpPaper bare_hit))) (lit "url    = {}") = true.
Proof.
  destruct (dblp_no_doi_no_url bare_hit eq_refl eq_refl) as [H1 [_ H3]].
  split; [exact H1|exact H3].
Defined.

(** ** Venues and titles from the adapters *)

Definition neurips_hit : DblpInfo :=
  mkDblpInfo (Some (lit "Deep Sets")) (Some (DA_many [RA_obj (Some (lit "Jianxin Wang 3")) None None None None]))
             (Some (lit "2017")) None (Some (lit "https://dblp.org/rec/x"))
             (Some (lit "NeurIPS 2")) None None None.

(** C4 (counterexample): the DBLP venue ["NeurIPS 2"] reaches the record
    and its text unchanged, although stripping would give ["NeurIPS"]. *)
Lemma venue_not_stripped_cex :
  stripNumericSuffix (lit "NeurIPS 2") = lit "NeurIPS" /\
  journal (dblpPaper neurips_hit) = Some (lit "NeurIPS 2") /\
  contains (text (bibtex (dblpPaper neurips_hit))) (lit "journal= {NeurIPS 2}") = true /\
  contains (text (bibtex (dblpPaper neurips_hit))) (lit "journal= {NeurIPS}") = false.
Proof.
  split; [|split; [|split]]; vm_compute; reflexivity.
Qed.

(** C4 (amended): numeric-suffix stripping is applied to author names
    ([toAuthorStr], for all three sources, and again in [surname]); venue
    strings are taken as the source gives them: DBLP's
    [venue ?? journal ?? booktitle ?? type] (underscores of [type] turned
    into spaces), Crossref's first [container-title], none for arXiv. The
    author ["Jianxin Wang 3"] becomes ["Jianxin Wang"] while the venue
    ["NeurIPS 2"] stays as it is. *)
Theorem venue_passthrough_author_stripped :
  (forall info : DblpInfo,
     journal (dblpPaper info) =
     match i_venue info with Some v => Some v | None =>
     match i_journal info with Some v => Some v | None =>
     match i_booktitle info with Some v => Some v | None =>
       option_map underscores_to_spaces (i_type info) end end end) /\
  (forall it : CrossrefItem,
     journal (crossrefPaper it) =
     match it_container_title it with Some (j :: _) => Some j | _ => None end) /\
  (forall e : ArxivEntry, journal (arxivPaper e) = None) /\
  (forall s : js, toAuthorStr (RA_str s) = stripNumericSuffix (trim s)) /\
  authors (dblpPaper neurips_hit) = [lit "Jianxin Wang"] /\
  journal (dblpPaper neurips_hit) = Some (lit "NeurIPS 2").
Proof.
  split; [intros; reflexivity|].
  split; [intros; reflexivity|].
  split; [intros; reflexivity|].
  split; [intros; reflexivity|].
  split; vm_compute; reflexivity.
Qed.

Lemma collapse_ws_head (c : ascii) (r : js) :
  is_ws c = false -> collapse_ws (c :: r) = c :: collapse_ws r.
Proof. intros H; simpl; rewrite H; reflexivity. Qed.

(** [replace(/\s+/g, " ")] leaves no whitespace but single spaces. *)
Lemma collapse_ws_collapsed (s : js) : ws_collapsed (collapse_ws s) = true.
Proof.
  induction s as [|c r IH]; [reflexivity|].
  cbn [collapse_ws]. destruct (is_ws c) eqn:Ec.
  - destruct r as [|d r']; [reflexivity|].
    destruct (is_ws d) eqn:Ed; [exact IH|].
    cbn [ws_collapsed]. rewrite collapse_ws_head by exact Ed.
    rewrite <- collapse_ws_head by exact Ed. rewrite IH.
    rewrite collapse_ws_head by exact Ed. simpl hd. rewrite Ed. reflexivity.
  - cbn [ws_collapsed]. rewrite Ec, IH; reflexivity.
Qed.

(** A title broken over two lines, as the services return long titles. *)
Definition spaced_title : js := lit "Deep" ++ nl ++ lit "   Learning".

Definition spaced_item : CrossrefItem :=
  mkCrossrefItem (Some [spaced_title]) None None None None None.

(** C9 (failing input): the same raw title gives ["Deep Learning"] through
    the arXiv and DBLP adapters but keeps its newline and run of spaces
    through the Crossref adapter; and an empty raw title gives an empty
    title in all three adapters. *)
Lemma crossref_title_cex :
  title (crossrefPaper spaced_item) = spaced_title /\
  ws_collapsed (title (crossrefPaper spaced_item)) = false /\
  title (arxivPaper (mkArxivEntry spaced_title [] [] [])) = lit "Deep Learning" /\
  title (dblpPaper (mkDblpInfo (Some spaced_title) None None None None None None None None))
    = lit "Deep Learning" /\
  title (crossrefPaper (mkCrossrefItem (Some [[]]) None None None None None)) = [] /\
  title (arxivPaper (mkArxivEntry [] [] [] [])) = [] /\
  title (dblpPaper (mkDblpInfo (Some []) None None None None None None None None)) = [].
Proof.
  repeat split; vm_compute; reflexivity.
Qed.

(** C9: the arXiv and DBLP adapters always collapse the title's whitespace,
    while the Crossref adapter passes [it.title[0]] through unchanged, so
    any raw Crossref title with a newline, tab or run of spaces stays
    uncollapsed in the record. *)
Theorem crossref_title_uncollapsed (it : CrossrefItem) (t : js) (r : list js)
  (Ht : it_title it = Some (t :: r)) (Hw : ws_collapsed t = false) :
  title (crossrefPaper it) = t /\ ws_collapsed (title (crossrefPaper it)) = false /\
  (forall e : ArxivEntry, ws_collapsed (title (arxivPaper e)) = true) /\
  (forall info : DblpInfo, ws_collapsed (title (dblpPaper info)) = true).
Proof.
  assert (E : title (crossrefPaper it) = t) by (unfold crossrefPaper; cbn [title]; rewrite Ht; reflexivity).
  split; [exact E|split; [rewrite E; exact Hw|]].
  split; intros; apply collapse_ws_collapsed.
Qed.

Lemma crossref_title_uncollapsed_witness :
  ws_collapsed (title (crossrefPaper spaced_item)) = false.
Proof.
  apply (crossref_title_uncollapsed spaced_item spaced_title []); [reflexivity|vm_compute; reflexivity].
Defined.

(** ** The aggregator *)

Definition batch_of (e : Event) : list Paper :=
  match e with Ev_then _ b => b | Ev_finally _ => [] end.

Definition outcome_batch (o : option (list Paper)) : list Paper :=
  match o with Some b => b | None => [] end.

Lemma Source_eq_dec (a b : Source) : {a = b} + {a <> b}.
Proof. decide equality. Qed.

Lemma run_snoc (t : list Event) (e : Event) : run (t ++ [e]) = step (run t) e.
Proof. unfold run; rewrite fold_left_app; reflexivity. Qed.

Lemma settled_app (t u : list Event) : settled (t ++ u) = settled t ++ settled u.
Proof. unfold settled; apply flat_map_app. Qed.

(** Appends only: the list is the batches in callback order. *)
Lemma run_items (t : list Event) : items (run t) = flat_map batch_of t.
Proof.
  induction t as [|e t IH] using rev_ind; [reflexivity|].
  rewrite run_snoc, flat_map_app, <- IH.
  destruct e as [s b|s]; cbn [step flat_map batch_of].
  - cbn [items]; rewrite app_nil_r; reflexivity.
  - unfold finish. destruct ((pending (run t) - 1 =? 0)%Z);
      cbn [items]; rewrite app_nil_r; reflexivity.
Qed.

(** While at most three sources have settled, [pending] counts the others
    and [busy] holds until the third. *)
Lemma run_counter (t : list Event) :
  length (settled t) <= 3 ->
  pending (run t) = (3 - Z.of_nat (length (settled t)))%Z /\
  busy (run t) = (length (settled t) <? 3).
Proof.
  induction t as [|e t IH] using rev_ind; intros Hl; [split; reflexivity|].
  rewrite settled_app in *. rewrite length_app in Hl.
  rewrite run_snoc, length_app.
  destruct e as [s b|s].
  - change (settled [Ev_then s b]) with (@nil Source) in *.
    cbn [length] in *. rewrite Nat.add_0_r in *. apply IH; lia.
  - change (settled [Ev_finally s]) with [s] in *. cbn [length step] in *.
    destruct (IH ltac:(lia)) as [Hp Hb].
    unfold finish. rewrite Hp. rewrite Nat2Z.inj_add.
    destruct (Z.eqb_spec (3 - Z.of_nat (length (settled t)) - 1) 0) as [E|E]; cbn [pending busy].
    + split; [lia|]. symmetry; apply Nat.ltb_ge; lia.
    + split; [lia|]. rewrite Hb.
      assert (length (settled t) <> 2) by lia.
      destruct (Nat.ltb_spec (length (settled t)) 3);
        destruct (Nat.ltb_spec (length (settled t) + 1) 3); lia.
Qed.

Lemma all_sources_incl (l : list Source) : incl l [arxiv; crossref; dblp].
Proof. intros s _; destruct s; simpl; auto. Qed.

Lemma NoDup_three : NoDup [arxiv; crossref; dblp].
Proof.
  constructor; [simpl; intuition discriminate|].
  constructor; [simpl; intuition discriminate|].
  constructor; [simpl; tauto|constructor].
Qed.

Lemma settled_all_iff (l : list Source) :
  NoDup l -> length l <= 3 /\ (3 <= length l <-> In arxiv l /\ In crossref l /\ In dblp l).
Proof.
  intros Hnd. split; [exact (NoDup_incl_length Hnd (all_sources_incl l))|].
  split.
  - intros H3.
    destruct (in_dec Source_eq_dec arxiv l) as [Ha|Ha];
    [|exfalso; assert (Hi : incl l [crossref; dblp])
        by (intros [] Hin; simpl; auto; contradiction);
      pose proof (NoDup_incl_length Hnd Hi); simpl in *; lia].
    destruct (in_dec Source_eq_dec crossref l) as [Hc|Hc];
    [|exfalso; assert (Hi : incl l [arxiv; dblp])
        by (intros [] Hin; simpl; auto; contradiction);
      pose proof (NoDup_incl_length Hnd Hi); simpl in *; lia].
    destruct (in_dec Source_eq_dec dblp l) as [Hd|Hd];
    [|exfalso; assert (Hi : incl l [arxiv; crossref])
        by (intros [] Hin; simpl; auto; contradiction);
      pose proof (NoDup_incl_length Hnd Hi); simpl in *; lia].
    auto.
  - intros (Ha & Hc & Hd).
    assert (Hi : incl [arxiv; crossref; dblp] l)
      by (intros s Hs; simpl in Hs; intuition congruence).
    exact (NoDup_incl_length NoDup_three Hi).
Qed.

(** [busy] is false exactly when all three sources have settled, for any
    callback order in which each source settles at most once. *)
Lemma busy_false_iff (t : list Event) :
  NoDup (settled t) -> (busy (run t) = false <-> all_settled t).
Proof.
  intros Hnd. destruct (settled_all_iff _ Hnd) as [Hl Hiff].
  destruct (run_counter t Hl) as [_ Hb]. unfold all_settled.
  rewrite Hb, <- Hiff, Nat.ltb_ge; tauto.
Qed.

Lemma merge3_perm (a b c t : list Event) : merge3 a b c t -> Permutation t (a ++ b ++ c).
Proof.
  induction 1.
  - constructor.
  - simpl; constructor; assumption.
  - apply Permutation_cons_app; assumption.
  - rewrite app_assoc in *. apply Permutation_cons_app; assumption.
Qed.

Lemma flat_map_perm {B} (g : Event -> list B) (t u : list Event) :
  Permutation t u -> Permutation (flat_map g t) (flat_map g u).
Proof. intros H; apply (Permutation_flat_map g); exact H. Qed.

Lemma scripts_settled (oa od oc : option (list Paper)) :
  settled (script arxiv oa ++ script dblp od ++ script crossref oc) = [arxiv; dblp; crossref].
Proof. destruct oa, od, oc; reflexivity. Qed.

Lemma scripts_batches (oa od oc : option (list Paper)) :
  flat_map batch_of (script arxiv oa ++ script dblp od ++ script crossref oc) =
  outcome_batch oa ++ outcome_batch od ++ outcome_batch oc.
Proof.
  destruct oa, od, oc; simpl; rewrite ?app_nil_r; reflexivity.
Qed.

(** At the level of the callbacks: whatever the order in which the three
    sources' [.then] and [.finally] callbacks run, [busy] turns false
    exactly once all three [finish] calls have run and never before; a
    failed source adds nothing; the final list holds the successful
    batches (each in its own order); with one failure and batches of 5
    and 7 it has 12 records; when every source fails the session still
    completes, with an empty list. *)
Lemma finish_calls_settle (oa od oc : option (list Paper)) (t : list Event)
  (Ht : merge3 (script arxiv oa) (script dblp od) (script crossref oc) t) :
  (forall p q, t = p ++ q -> (busy (run p) = false <-> all_settled p)) /\
  busy (run t) = false /\
  Permutation (items (run t)) (outcome_batch oa ++ outcome_batch od ++ outcome_batch oc) /\
  (forall l5 l7 : list Paper, length l5 = 5 -> length l7 = 7 ->
     Permutation [oa; od; oc] [None; Some l5; Some l7] -> length (items (run t)) = 12) /\
  (oa = None -> od = None -> oc = None -> items (run t) = [] /\ busy (run t) = false).
Proof.
  pose proof (merge3_perm _ _ _ _ Ht) as Hp.
  assert (Hnd : NoDup (settled t)).
  { apply (Permutation_NoDup (l := [arxiv; dblp; crossref])).
    - rewrite <- (scripts_settled oa od oc). symmetry; apply flat_map_perm; exact Hp.
    - constructor; [simpl; intuition discriminate|].
      constructor; [simpl; intuition discriminate|].
      constructor; [simpl; tauto|constructor]. }
  assert (Hall : all_settled t).
  { unfold all_settled.
    assert (Hs : Permutation (settled t) [arxiv; dblp; crossref]).
    { rewrite <- (scripts_settled oa od oc). apply flat_map_perm; exact Hp. }
    repeat split; apply (Permutation_in _ (Permutation_sym Hs)); simpl; tauto. }
  assert (Hbusy : busy (run t) = false) by (apply busy_false_iff; assumption).
  assert (Hitems : Permutation (items (run t))
                     (outcome_batch oa ++ outcome_batch od ++ outcome_batch oc)).
  { rewrite run_items, <- scripts_batches. apply flat_map_perm; exact Hp. }
  split; [|split; [exact Hbusy|split; [exact Hitems|split]]].
  - intros p q ->. apply busy_false_iff.
    rewrite settled_app in Hnd. exact (NoDup_app_remove_r _ _ Hnd).
  - intros l5 l7 H5 H7 Hperm.
    rewrite (Permutation_length Hitems).
    assert (Hsum : forall x y z : option (list Paper),
              length (outcome_batch x ++ outcome_batch y ++ outcome_batch z) =
              outcome_len x + outcome_len y + outcome_len z).
    { intros [] [] []; simpl; rewrite ?length_app; simpl; lia. }
    rewrite Hsum.
    assert (Hf : forall l l' : list (option (list Paper)), Permutation l l' ->
              list_sum (map outcome_len l) = list_sum (map outcome_len l')).
    { intros l l' H; induction H; simpl; lia. }
    specialize (Hf _ _ Hperm); simpl in Hf. lia.
  - intros -> -> ->. split; [|exact Hbusy].
    apply Permutation_nil. apply Permutation_sym. exact Hitems.
Qed.

Definition five_papers : list Paper := repeat tong_paper 5.
Definition seven_papers : list Paper := repeat (dblp_rec (lit "10.1145/3.4")) 7.

(** arXiv fails first, Crossref returns 7 records, then DBLP returns 5. *)
Definition sample_order : list Event :=
  [Ev_finally arxiv; Ev_then crossref seven_papers; Ev_finally crossref;
   Ev_then dblp five_papers; Ev_finally dblp].

(** ** The aggregator over the adapters' promises *)

Lemma acts_events (s : Source) (o : option (list Paper)) :
  flat_map act_events (acts s o) = script s o.
Proof. destruct o; reflexivity. Qed.

Lemma merge3_app_a (ev a b c t : list Event) :
  merge3 a b c t -> merge3 (ev ++ a) b c (ev ++ t).
Proof. intros H; induction ev as [|e ev IH]; [exact H|apply m3_a, IH]. Qed.

Lemma merge3_app_b (ev a b c t : list Event) :
  merge3 a b c t -> merge3 a (ev ++ b) c (ev ++ t).
Proof. intros H; induction ev as [|e ev IH]; [exact H|apply m3_b, IH]. Qed.

Lemma merge3_app_c (ev a b c t : list Event) :
  merge3 a b c t -> merge3 a b (ev ++ c) (ev ++ t).
Proof. intros H; induction ev as [|e ev IH]; [exact H|apply m3_c, IH]. Qed.

Lemma interleave3_events (a b c t : list Act) :
  interleave3 a b c t ->
  merge3 (flat_map act_events a) (flat_map act_events b) (flat_map act_events c)
         (flat_map act_events t).
Proof.
  induction 1; cbn [flat_map].
  - apply m3_nil.
  - apply merge3_app_a; assumption.
  - apply merge3_app_b; assumption.
  - apply merge3_app_c; assumption.
Qed.

Lemma interleave3_perm (a b c t : list Act) : interleave3 a b c t -> Permutation t (a ++ b ++ c).
Proof.
  induction 1.
  - constructor.
  - simpl; constructor; assumption.
  - rewrite IHinterleave3. simpl. apply Permutation_middle.
  - rewrite IHinterleave3. rewrite !app_assoc. apply Permutation_middle.
Qed.

(** A prefix of an interleaving interleaves prefixes of the three sources. *)
Lemma interleave3_prefix (p : list Act) :
  forall a b c q, interleave3 a b c (p ++ q) ->
  exists a1 a2 b1 b2 c1 c2,
    a = a1 ++ a2 /\ b = b1 ++ b2 /\ c = c1 ++ c2 /\ interleave3 a1 b1 c1 p.
Proof.
  induction p as [|x p IH]; intros a b c q H.
  - exists [], a, [], b, [], c. repeat split; apply i3_nil.
  - inversion H; subst.
    + destruct (IH _ _ _ _ H4) as (a1 & a2 & b1 & b2 & c1 & c2 & -> & -> & -> & Hi).
      exists (x :: a1), a2, b1, b2, c1, c2. repeat split; apply i3_a, Hi.
    + destruct (IH _ _ _ _ H4) as (a1 & a2 & b1 & b2 & c1 & c2 & -> & -> & -> & Hi).
      exists a1, a2, (x :: b1), b2, c1, c2. repeat split; apply i3_b, Hi.
    + destruct (IH _ _ _ _ H4) as (a1 & a2 & b1 & b2 & c1 & c2 & -> & -> & -> & Hi).
      exists a1, a2, b1, b2, (x :: c1), c2. repeat split; apply i3_c, Hi.
Qed.

Lemma acts_prefix (s : Source) (o : option (list Paper)) (x1 x2 : list Act) :
  acts s o = x1 ++ x2 -> x1 = [] \/ x1 = [A_settle s o] \/ x1 = acts s o.
Proof.
  intros E. destruct o as [l|];
    destruct x1 as [|y [|z [|w r]]]; simpl in E; try discriminate;
    try (injection E; intros; subst); auto.
Qed.

Lemma in_perm_iff {A} (x : A) (l l' : list A) : Permutation l l' -> (In x l <-> In x l').
Proof.
  intros H; split; apply Permutation_in; [exact H|apply Permutation_sym, H].
Qed.

Definition act_source (x : Act) : Source :=
  match x with A_settle s _ => s | A_dismiss s => s end.

Definition acts_prefix_of (s : Source) (o : option (list Paper)) (x1 : list Act) : Prop :=
  x1 = [] \/ x1 = [A_settle s o] \/ x1 = acts s o.

Lemma prefix_sources (s : Source) (o : option (list Paper)) (x1 : list Act) :
  acts_prefix_of s o x1 -> forall x, In x x1 -> act_source x = s.
Proof.
  unfold acts_prefix_of; intros [->|[->| ->]] x Hx; [destruct Hx| |destruct o];
    simpl in Hx; intuition (subst; reflexivity).
Qed.

Lemma prefix_settled (s : Source) (o : option (list Paper)) (x1 : list Act) :
  acts_prefix_of s o x1 ->
  forall s', In s' (settled (flat_map act_events x1)) <-> s' = s /\ source_done s o x1.
Proof.
  unfold acts_prefix_of, source_done; intros [->|[->| ->]] s'; destruct o; cbn;
    intuition (try discriminate; try congruence).
Qed.

Lemma source_done_app_r (s : Source) (o : option (list Paper)) (x y : list Act) :
  (forall z, In z y -> act_source z <> s) -> (source_done s o (x ++ y) <-> source_done s o x).
Proof.
  intros Hy. unfold source_done. rewrite !in_app_iff.
  assert (H1 : ~ In (A_settle s o) y) by (intros H; exact (Hy _ H eq_refl)).
  assert (H2 : ~ In (A_dismiss s) y) by (intros H; exact (Hy _ H eq_refl)).
  tauto.
Qed.

Lemma source_done_app_l (s : Source) (o : option (list Paper)) (x y : list Act) :
  (forall z, In z y -> act_source z <> s) -> (source_done s o (y ++ x) <-> source_done s o x).
Proof.
  intros Hy. unfold source_done. rewrite !in_app_iff.
  assert (H1 : ~ In (A_settle s o) y) by (intros H; exact (Hy _ H eq_refl)).
  assert (H2 : ~ In (A_dismiss s) y) by (intros H; exact (Hy _ H eq_refl)).
  tauto.
Qed.

Lemma other_source (s s' : Source) (o : option (list Paper)) (x1 : list Act) :
  acts_prefix_of s o x1 -> s <> s' -> forall z, In z x1 -> act_source z <> s'.
Proof.
  intros Hp Hne z Hz. rewrite (prefix_sources _ _ _ Hp z Hz). exact Hne.
Qed.

(** After any prefix, by each source's progress. *)
Lemma done_by_prefixes (oa od oc : option (list Paper)) (a1 b1 c1 : list Act) :
  acts_prefix_of arxiv oa a1 -> acts_prefix_of dblp od b1 -> acts_prefix_of crossref oc c1 ->
  (all_settled (flat_map act_events (a1 ++ b1 ++ c1)) <->
   source_done arxiv oa (a1 ++ b1 ++ c1) /\ source_done dblp od (a1 ++ b1 ++ c1) /\
   source_done crossref oc (a1 ++ b1 ++ c1)).
Proof.
  intros Ha Hb Hc.
  assert (Hba : forall z, In z b1 -> act_source z <> arxiv)
    by (apply (other_source dblp arxiv od); [exact Hb|discriminate]).
  assert (Hca : forall z, In z c1 -> act_source z <> arxiv)
    by (apply (other_source crossref arxiv oc); [exact Hc|discriminate]).
  assert (Hab : forall z, In z a1 -> act_source z <> dblp)
    by (apply (other_source arxiv dblp oa); [exact Ha|discriminate]).
  assert (Hcb : forall z, In z c1 -> act_source z <> dblp)
    by (apply (other_source crossref dblp oc); [exact Hc|discriminate]).
  assert (Hac : forall z, In z a1 -> act_source z <> crossref)
    by (apply (other_source arxiv crossref oa); [exact Ha|discriminate]).
  assert (Hbc' : forall z, In z b1 -> act_source z <> crossref)
    by (apply (other_source dblp crossref od); [exact Hb|discriminate]).
  assert (Hbc : forall z, In z (b1 ++ c1) -> act_source z <> arxiv).
  { intros z Hz. apply in_app_iff in Hz as [Hz|Hz]; [exact (Hba z Hz)|exact (Hca z Hz)]. }
  rewrite (source_done_app_r arxiv oa a1 (b1 ++ c1) Hbc).
  rewrite (source_done_app_l dblp od (b1 ++ c1) a1 Hab).
  rewrite (source_done_app_r dblp od b1 c1 Hcb).
  rewrite (source_done_app_l crossref oc (b1 ++ c1) a1 Hac).
  rewrite (source_done_app_l crossref oc c1 b1 Hbc').
  unfold all_settled. rewrite !flat_map_app, !settled_app, !in_app_iff.
  rewrite !(prefix_settled _ _ _ Ha), !(prefix_settled _ _ _ Hb), !(prefix_settled _ _ _ Hc).
  intuition discriminate.
Qed.

(** C2: in every order in which the three searches settle and the failed
    sources' error notifications are dismissed, [busy] is false after a
    prefix exactly when every source has settled and every failed source's
    notification has been dismissed (a failed source's [finish] waits for
    that dismissal); once all of that has happened the session is no
    longer busy and the list holds the successful batches. *)
Theorem aggregation_waits_for_dismissal (oa od oc : option (list Paper)) (t : list Act)
  (Ht : interleave3 (acts arxiv oa) (acts dblp od) (acts crossref oc) t) :
  (forall p q, t = p ++ q ->
     (busy (run_acts p) = false <->
      source_done arxiv oa p /\ source_done dblp od p /\ source_done crossref oc p)) /\
  busy (run_acts t) = false /\
  Permutation (items (run_acts t)) (outcome_batch oa ++ outcome_batch od ++ outcome_batch oc).
Proof.
  pose proof (interleave3_events _ _ _ _ Ht) as Hm. rewrite !acts_events in Hm.
  destruct (finish_calls_settle _ _ _ _ Hm) as [Hpre [Hb [Hi _]]].
  split; [|split; [exact Hb|exact Hi]].
  intros p q E. unfold run_acts.
  rewrite (Hpre (flat_map act_events p) (flat_map act_events q))
    by (rewrite E, flat_map_app; reflexivity).
  rewrite E in Ht.
  destruct (interleave3_prefix p _ _ _ q Ht) as (a1 & a2 & b1 & b2 & c1 & c2 & Ea & Eb & Ec & Hi1).
  pose proof (interleave3_perm _ _ _ _ Hi1) as Hp.
  assert (Hs : all_settled (flat_map act_events p) <->
               all_settled (flat_map act_events (a1 ++ b1 ++ c1))).
  { pose proof (flat_map_perm (fun e => match e with Ev_finally s => [s] | Ev_then _ _ => [] end)
                  _ _ (Permutation_flat_map act_events Hp)) as Hq.
    unfold all_settled, settled. rewrite !(in_perm_iff _ _ _ Hq). tauto. }
  assert (Hd : forall s o, source_done s o p <-> source_done s o (a1 ++ b1 ++ c1)).
  { intros s o. unfold source_done. rewrite !(in_perm_iff _ _ _ Hp). tauto. }
  rewrite Hs, !Hd.
  apply done_by_prefixes; unfold acts_prefix_of; eapply acts_prefix; eassumption.
Qed.

(** arXiv fails, Crossref returns 7 records, DBLP returns 5, and only then
    is arXiv's error notification dismissed. *)
Definition late_dismissal : list Act :=
  [A_settle arxiv None; A_settle crossref (Some seven_papers);
   A_settle dblp (Some five_papers); A_dismiss arxiv].

Lemma late_dismissal_interleaves :
  interleave3 (acts arxiv None) (acts dblp (Some five_papers))
              (acts crossref (Some seven_papers)) late_dismissal.
Proof. apply i3_a, i3_c, i3_b, i3_a, i3_nil. Qed.

Lemma aggregation_waits_for_dismissal_witness :
  busy (run_acts late_dismissal) = false /\ length (items (run_acts late_dismissal)) = 12.
Proof.
  destruct (aggregation_waits_for_dismissal _ _ _ _ late_dismissal_interleaves) as [_ [Hb Hi]].
  split; [exact Hb|]. rewrite (Permutation_length Hi). vm_compute. reflexivity.
Defined.

(** C2 (failing input): after arXiv failed and DBLP and Crossref returned
    5 and 7 records, all three searches have settled and the 12 records
    are shown, yet [busy] is still true until arXiv's notification is
    dismissed; when all three searches fail, the session stays busy, with
    an empty list, until all three notifications are dismissed. *)
Lemma settled_but_busy_cex :
  adapters_settled (firstn 3 late_dismissal) = [arxiv; crossref; dblp] /\
  length (items (run_acts (firstn 3 late_dismissal))) = 12 /\
  busy (run_acts (firstn 3 late_dismissal)) = true /\
  busy (run_acts late_dismissal) = false /\
  interleave3 (acts arxiv None) (acts dblp None) (acts crossref None)
    [A_settle arxiv None; A_settle dblp None; A_settle crossref None;
     A_dismiss arxiv; A_dismiss dblp; A_dismiss crossref] /\
  adapters_settled [A_settle arxiv None; A_settle dblp None; A_settle crossref None]
    = [arxiv; dblp; crossref] /\
  items (run_acts [A_settle arxiv None; A_settle dblp None; A_settle crossref None]) = [] /\
  busy (run_acts [A_settle arxiv None; A_settle dblp None; A_settle crossref None]) = true.
Proof.
  split; [vm_compute; reflexivity|].
  split; [vm_compute; reflexivity|].
  split; [vm_compute; reflexivity|].
  split; [vm_compute; reflexivity|].
  split; [apply i3_a, i3_b, i3_c, i3_a, i3_b, i3_c, i3_nil|].
  repeat split; vm_compute; reflexivity.
Qed.

(** * Further properties of the extension *)

(** ** [clean] *)

Definition key_char (c : ascii) : bool := is_lower c || is_digit c.

Lemma key_char_not_upper (c : ascii) : key_char c = true -> is_upper c = false.
Proof.
  unfold key_char, is_lower, is_digit, is_upper.
  destruct (Nat.leb_spec 65 (nat_of_ascii c)), (Nat.leb_spec (nat_of_ascii c) 90),
           (Nat.leb_spec 97 (nat_of_ascii c)), (Nat.leb_spec (nat_of_ascii c) 122),
           (Nat.leb_spec 48 (nat_of_ascii c)), (Nat.leb_spec (nat_of_ascii c) 57);
    simpl; intros Hk; try reflexivity; try discriminate; lia.
Qed.

Lemma filter_all {A} (f : A -> bool) (l : list A) : forallb f l = true -> filter f l = l.
Proof.
  induction l as [|x l IH]; simpl; [reflexivity|].
  intros H; apply andb_true_iff in H as [H1 H2]; rewrite H1, IH by exact H2; reflexivity.
Qed.

Lemma forallb_filter {A} (f : A -> bool) (l : list A) : forallb f (filter f l) = true.
Proof.
  induction l as [|x l IH]; simpl; [reflexivity|].
  destruct (f x) eqn:E; simpl; rewrite ?E, ?IH; reflexivity.
Qed.

(** X1: [clean] keeps only [a-z0-9] and is idempotent. *)
Theorem clean_charset_idempotent (s : js) :
  forallb key_char (clean s) = true /\ clean (clean s) = clean s.
Proof.
  assert (H : forallb key_char (clean s) = true) by apply forallb_filter.
  split; [exact H|].
  unfold clean at 1. fold key_char.
  assert (Hl : forall l, forallb key_char l = true -> toLowerCase l = l).
  { induction l as [|c l IH]; simpl; [reflexivity|].
    intros Hc; apply andb_true_iff in Hc as [Hc Hr].
    unfold to_lower_c; rewrite (key_char_not_upper c Hc), IH by exact Hr; reflexivity. }
  rewrite (Hl _ H). apply filter_all; exact H.
Qed.

(** X2: a key built from a year made of digits consists of [a-z0-9] only. *)
Theorem bibKey_charset (p : Paper) (Hy : forallb is_digit (year p) = true) :
  forallb key_char (key (bibtex p)) = true.
Proof.
  destruct bibKey_formula as [Hk _]. rewrite Hk.
  rewrite !forallb_app.
  rewrite (proj1 (clean_charset_idempotent _)), (proj1 (clean_charset_idempotent _)).
  assert (Hd : forall l, forallb is_digit l = true -> forallb key_char l = true).
  { induction l as [|c l IH]; simpl; [reflexivity|].
    intros H; apply andb_true_iff in H as [H1 H2].
    rewrite (IH H2); unfold key_char; rewrite H1, orb_true_r; reflexivity. }
  rewrite (Hd _ Hy); reflexivity.
Qed.

Lemma bibKey_charset_witness :
  forallb is_digit (year tong_paper) = true /\ forallb key_char (key (bibtex tong_paper)) = true.
Proof.
  assert (Hy : forallb is_digit (year tong_paper) = true) by (vm_compute; reflexivity).
  split; [exact Hy|exact (bibKey_charset tong_paper Hy)].
Defined.

(** ** [stripNumericSuffix] *)

Lemma forallb_last {A} (f : A -> bool) (l : list A) (d : A) :
  l <> [] -> forallb f l = true -> f (last l d) = true.
Proof.
  induction l as [|x l IH]; intros Hne H; [congruence|].
  simpl in H; apply andb_true_iff in H as [H1 H2].
  destruct l as [|y l]; [exact H1|].
  change (last (x :: y :: l) d) with (last (y :: l) d). apply IH; [discriminate|exact H2].
Qed.

Lemma ws_digits_last (r : js) : ws_digits r = true -> r <> [] /\ is_digit (last r " "%char) = true.
Proof.
  induction r as [|c r IH]; simpl; [discriminate|].
  intros H; split; [discriminate|].
  destruct (is_ws c).
  - destruct (IH H) as [Hne Hd]. destruct r; [congruence|exact Hd].
  - apply andb_true_iff in H as [H _].
    exact (forallb_last is_digit (c :: r) " "%char ltac:(discriminate) H).
Qed.

(** X3: [stripNumericSuffix] only ever removes a tail of its input, and
    leaves a string that does not end in a digit unchanged. *)
Theorem stripNumericSuffix_prefix (s : js) :
  (exists suf, s = stripNumericSuffix s ++ suf) /\
  (is_digit (last s " "%char) = false -> stripNumericSuffix s = s).
Proof.
  split.
  - induction s as [|c r [suf IH]]; [exists []; reflexivity|].
    cbn [stripNumericSuffix]. destruct (suffix_match (c :: r)).
    + exists (c :: r); reflexivity.
    + exists suf; simpl; congruence.
  - induction s as [|c r IH]; intros H; [reflexivity|].
    cbn [stripNumericSuffix]. destruct (suffix_match (c :: r)) eqn:E.
    + exfalso. simpl in E. apply andb_true_iff in E as [_ E].
      destruct (ws_digits_last r E) as [Hne Hd].
      destruct r as [|d r]; [congruence|]. change (last (c :: d :: r) " "%char) with (last (d :: r) " "%char) in H.
      congruence.
    + destruct r as [|d r]; [reflexivity|].
      rewrite IH; [reflexivity|exact H].
Qed.

Lemma stripNumericSuffix_prefix_witness :
  is_digit (last (lit "Wang, J.") " "%char) = false /\
  stripNumericSuffix (lit "Wang, J.") = lit "Wang, J.".
Proof.
  assert (H : is_digit (last (lit "Wang, J.") " "%char) = false) by (vm_compute; reflexivity).
  split; [exact H|exact (proj2 (stripNumericSuffix_prefix _) H)].
Defined.

(** ** Author strings *)

Definition trimmed (s : js) : Prop :=
  s = [] \/ (is_ws (hd " "%char s) = false /\ is_ws (last s " "%char) = false).

Lemma strip_trimmed (s : js) : trimmed s -> trimmed (stripNumericSuffix s).
Proof.
  intros [->|[Hh Hl]]; [left; reflexivity|].
  destruct s as [|c r]; [left; reflexivity|].
  simpl in Hh.
  assert (Es : stripNumericSuffix (c :: r) = c :: stripNumericSuffix r).
  { cbn [stripNumericSuffix suffix_match]. rewrite Hh; reflexivity. }
  destruct (strip_ends (c :: r) Hl) as [E|E]; rewrite Es in *; [discriminate|].
  right; split; [exact Hh|exact E].
Qed.

Lemma toAuthorStr_trimmed (a : RawAuthor) : trimmed (toAuthorStr a).
Proof.
  unfold toAuthorStr. apply strip_trimmed.
  match goal with |- trimmed (trim ?x) => destruct (trim_ends x) as [E|E] end;
    [left|right]; exact E.
Qed.

(** X4: every author string an adapter produces is empty or starts and
    ends with a non-whitespace character. *)
Theorem adapter_authors_trimmed :
  (forall e : ArxivEntry, Forall trimmed (authors (arxivPaper e))) /\
  (forall it : CrossrefItem, Forall trimmed (authors (crossrefPaper it))) /\
  (forall info : DblpInfo, Forall trimmed (authors (dblpPaper info))).
Proof.
  assert (Hm : forall l, Forall trimmed (map toAuthorStr l)).
  { intros l; apply Forall_forall; intros x Hx; apply in_map_iff in Hx as [a [<- _]].
    apply toAuthorStr_trimmed. }
  split; [intros e; apply Hm|split; [intros it; apply Hm|]].
  intros info; cbn [dblpPaper authors].
  destruct (i_author info) as [[a|l]|]; [|apply Hm|constructor].
  constructor; [apply toAuthorStr_trimmed|constructor].
Qed.

Lemma trim_start_app (a b : js) :
  trim_start (a ++ b) = match trim_start a with [] => trim_start b | t => t ++ b end.
Proof.
  induction a as [|c a IH]; [reflexivity|].
  simpl. destruct (is_ws c); [exact IH|reflexivity].
Qed.

Lemma trim_start_all_ws (w : js) : forallb is_ws w = true -> trim_start w = [].
Proof.
  induction w as [|c w IH]; simpl; [reflexivity|].
  intros H; apply andb_true_iff in H as [H1 H2]; rewrite H1; exact (IH H2).
Qed.

Lemma forallb_rev_ws (w : js) : forallb is_ws w = true -> forallb is_ws (rev w) = true.
Proof.
  intros H. apply forallb_forall; intros x Hx. apply in_rev in Hx.
  exact (proj1 (forallb_forall _ _) H x Hx).
Qed.

(** Whitespace around a string does not change its [trim]. *)
Lemma trim_around (w1 s w2 : js) :
  forallb is_ws w1 = true -> forallb is_ws w2 = true -> trim (w1 ++ s ++ w2) = trim s.
Proof.
  intros H1 H2. unfold trim.
  rewrite trim_start_app, (trim_start_all_ws w1 H1), trim_start_app.
  destruct (trim_start s) as [|c t] eqn:E.
  - rewrite (trim_start_all_ws w2 H2); reflexivity.
  - rewrite rev_app_distr, trim_start_app, (trim_start_all_ws _ (forallb_rev_ws w2 H2)).
    reflexivity.
Qed.

(** X5: [surname] and [toAuthorStr] ignore whitespace around the name. *)
Theorem surname_ignores_outer_ws (w1 s w2 : js)
  (H1 : forallb is_ws w1 = true) (H2 : forallb is_ws w2 = true) :
  surname (w1 ++ s ++ w2) = surname s /\
  toAuthorStr (RA_str (w1 ++ s ++ w2)) = toAuthorStr (RA_str s).
Proof.
  unfold surname, toAuthorStr. rewrite (trim_around w1 s w2 H1 H2). split; reflexivity.
Qed.

Lemma surname_ignores_outer_ws_witness :
  surname (lit "  " ++ lit "Jianxin Wang 3" ++ nl) = lit "Wang".
Proof.
  rewrite (proj1 (surname_ignores_outer_ws (lit "  ") (lit "Jianxin Wang 3") nl
                    ltac:(vm_compute; reflexivity) ltac:(vm_compute; reflexivity))).
  vm_compute; reflexivity.
Defined.

(** ** [firstWord] and titles *)

Lemma drop_nonalnum_incl (s : js) : incl (drop_nonalnum s) s.
Proof.
  induction s as [|c r IH]; simpl; [apply incl_refl|].
  destruct (is_alnum c); [apply incl_refl|apply incl_tl, IH].
Qed.

Lemma strip_punct_incl (w : js) : incl (strip_punct w) w.
Proof.
  unfold strip_punct. intros x Hx.
  apply in_rev in Hx. apply drop_nonalnum_incl in Hx. apply in_rev in Hx.
  apply drop_nonalnum_incl in Hx. exact Hx.
Qed.

(** X6: the title word [firstWord] picks is never empty and contains no
    whitespace. *)
Theorem firstWord_nonempty_no_ws (t : js) :
  firstWord t <> [] /\ forallb (fun c => negb (is_ws c)) (firstWord t) = true.
Proof.
  assert (Hw : forall w, In w (title_words t) ->
             w <> [] /\ forallb (fun c => negb (is_ws c)) w = true).
  { intros w Hin. unfold title_words in Hin.
    apply filter_In in Hin as [Hin Hne].
    apply in_map_iff in Hin as [w0 [<- Hin]].
    split; [intro E; rewrite E in Hne; discriminate|].
    apply forallb_forall; intros c Hc.
    exact (proj1 (forallb_forall _ _) (split_ws_no_ws t w0 Hin) c (strip_punct_incl w0 c Hc)). }
  unfold firstWord; fold (title_words t).
  destruct (find _ (title_words t)) as [w|] eqn:E.
  - apply find_some in E as [Hin _]; exact (Hw w Hin).
  - destruct (title_words t) as [|w ws] eqn:Ew.
    + split; [discriminate|reflexivity].
    + apply Hw; left; reflexivity.
Qed.

Lemma collapsed_fixed (s : js) : ws_collapsed s = true -> collapse_ws s = s.
Proof.
  induction s as [|c r IH]; intros H; [reflexivity|].
  cbn [ws_collapsed] in H. apply andb_true_iff in H as [Hc Hr].
  cbn [collapse_ws]. destruct (is_ws c) eqn:Ec.
  - simpl in Hc. apply andb_true_iff in Hc as [Hsp Hd].
    apply Ascii.eqb_eq in Hsp; subst c.
    destruct r as [|d r']; [reflexivity|].
    simpl in Hd. apply negb_true_iff in Hd. rewrite Hd, IH by exact Hr; reflexivity.
  - rewrite IH by exact Hr; reflexivity.
Qed.

(** X7: whitespace collapsing is idempotent: a title the arXiv or DBLP
    adapter produced is left unchanged by collapsing it again. *)
Theorem collapse_ws_idempotent :
  (forall s : js, collapse_ws (collapse_ws s) = collapse_ws s) /\
  (forall e : ArxivEntry, collapse_ws (title (arxivPaper e)) = title (arxivPaper e)) /\
  (forall info : DblpInfo, collapse_ws (title (dblpPaper info)) = title (dblpPaper info)).
Proof.
  split; [intros s; apply collapsed_fixed, collapse_ws_collapsed|].
  split; [intros e|intros info]; apply collapsed_fixed, collapse_ws_collapsed.
Qed.

(** ** Record text fields *)

Lemma startsWith_inv (s p : js) : startsWith s p = true -> exists v, s = p ++ v.
Proof.
  revert s; induction p as [|c p IH]; intros s H; [exists s; reflexivity|].
  destruct s as [|d s]; [discriminate|].
  simpl in H; apply andb_true_iff in H as [H1 H2]. apply Ascii.eqb_eq in H1; subst d.
  destruct (IH s H2) as [v ->]; exists v; reflexivity.
Qed.

Lemma contains_inv (s p : js) : contains s p = true -> exists u v, s = u ++ p ++ v.
Proof.
  induction s as [|c s IH]; intros H.
  - destruct p; [exists [], []; reflexivity|discriminate].
  - simpl in H. destruct (startsWith (c :: s) p) eqn:E.
    + destruct (startsWith_inv _ _ E) as [v Hv]; exists [], v; exact Hv.
    + destruct (IH H) as [u [v ->]]; exists (c :: u), v; reflexivity.
Qed.

Lemma contains_trans (s mid p : js) :
  contains mid p = true -> contains s mid = true -> contains s p = true.
Proof.
  intros H1 H2. destruct (contains_inv _ _ H2) as [u [v ->]].
  destruct (contains_inv _ _ H1) as [u' [v' ->]].
  rewrite <- !app_assoc. apply contains_app_l, contains_app_l, (contains_mid []).
Qed.

Lemma contains_self (s : js) : contains s s = true.
Proof. pose proof (contains_mid [] s []) as H; rewrite app_nil_r in H; exact H. Qed.

Lemma join_contains (sep a : js) (xs : list js) : In a xs -> contains (join sep xs) a = true.
Proof.
  induction xs as [|x xs IH]; intros Hin; [destruct Hin|].
  destruct xs as [|y xs].
  - destruct Hin as [<-|[]]; apply contains_self.
  - change (join sep (x :: y :: xs)) with (x ++ sep ++ join sep (y :: xs)).
    destruct Hin as [<-|Hin].
    + apply (contains_mid []).
    + apply contains_app_l, contains_app_l, IH, Hin.
Qed.

(** X8: every record text carries the title and year fields and the
    [" and "]-joined author list, so it contains each author's string. *)
Theorem bibtex_common_fields (p : Paper) :
  contains (text (bibtex p)) (lit "  title  = {" ++ title p ++ lit "},") = true /\
  contains (text (bibtex p)) (lit "  year   = {" ++ year p ++ lit "},") = true /\
  contains (text (bibtex p)) (lit "  author = {" ++ join (lit " and ") (authors p) ++ lit "},") = true /\
  (forall a, In a (authors p) -> contains (text (bibtex p)) a = true).
Proof.
  assert (Ha : contains (text (bibtex p))
                 (lit "  author = {" ++ join (lit " and ") (authors p) ++ lit "},") = true).
  { unfold bibtex; cbv zeta; destruct (source p); cbn [text]; find_field. }
  split; [unfold bibtex; cbv zeta; destruct (source p); cbn [text]; find_field|].
  split; [unfold bibtex; cbv zeta; destruct (source p); cbn [text]; find_field|].
  split; [exact Ha|].
  intros a Hin.
  apply (contains_trans _ (lit "  author = {" ++ join (lit " and ") (authors p) ++ lit "},") a);
    [|exact Ha].
  apply contains_app_l. apply (contains_trans _ _ a (join_contains (lit " and ") a (authors p) Hin)).
  apply (contains_mid [] _ (lit "},")).
Qed.

(** X9: the source-specific tail of the record: arXiv has the journal
    [arXiv] and an [eprint] field, Crossref the record's journal (default
    ["journal"]) and a [doi] field, DBLP the record's journal (default
    ["conference"]). *)
Theorem bibtex_source_fields (p : Paper) :
  match source p with
  | arxiv =>
      contains (text (bibtex p)) (lit "  journal= {arXiv},") = true /\
      contains (text (bibtex p)) (lit "  eprint = {" ++ id p ++ lit "}") = true
  | crossref =>
      contains (text (bibtex p))
        (lit "  journal= {" ++ get_or (journal p) (lit "journal") ++ lit "},") = true /\
      contains (text (bibtex p)) (lit "  doi    = {" ++ id p ++ lit "}") = true
  | dblp =>
      contains (text (bibtex p))
        (lit "  journal= {" ++ get_or (journal p) (lit "conference") ++ lit "},") = true
  end.
Proof.
  unfold bibtex; cbv zeta; destruct (source p); cbn [text];
    [split|split|]; find_field.
Qed.

(** ** arXiv identifiers *)

Lemma split_str_no_sep (fuel : nat) (sep s : js) :
  contains s sep = false -> length s <= fuel -> split_str_fuel fuel sep s = [s].
Proof.
  revert s; induction fuel as [|f IH]; intros s Hc Hl.
  - destruct s; [reflexivity|simpl in Hl; lia].
  - destruct s as [|c r]; [reflexivity|].
    simpl in Hc. apply orb_false_iff in Hc as [Hs Hr].
    cbn [split_str_fuel]. rewrite Hs, (IH r Hr) by (simpl in Hl; lia). reflexivity.
Qed.

(** X10: the arXiv adapter keeps what follows ["/abs/"] in the entry id:
    for [http://arxiv.org/abs/X] with no further ["/abs/"] in [X] the id is
    [X]; an id without ["/abs/"] gives the string ["undefined"] (JS's
    rendering of the missing piece). *)
Theorem arxiv_id_after_abs (e : ArxivEntry) :
  (forall x, e_id e = lit "http://arxiv.org/abs/" ++ x -> contains x (lit "/abs/") = false ->
     id (arxivPaper e) = x) /\
  (contains (e_id e) (lit "/abs/") = false -> id (arxivPaper e) = lit "undefined").
Proof.
  split.
  - intros x Hx Hc. unfold arxivPaper, split_str; cbn [id]. rewrite Hx, length_app.
    (* the match at offset 16 leaves [length x + 4] of the fuel for [x] *)
    replace (length (lit "http://arxiv.org/abs/") + length x) with (17 + (length x + 4))
      by (cbn; lia).
    assert (E := split_str_no_sep (length x + 4) (lit "/abs/") x Hc ltac:(lia)).
    remember (length x + 4) as m eqn:Em.
    cbn. cbn in E. rewrite E. reflexivity.
  - intros Hc. unfold arxivPaper, split_str; cbn [id].
    rewrite (split_str_no_sep _ _ _ Hc (le_n _)). reflexivity.
Qed.

Definition sample_entry : ArxivEntry :=
  mkArxivEntry (lit "Attention Is All You Need") [RA_str (lit "Ashish Vaswani")]
               (lit "2017-06-12T17:57:34Z") (lit "http://arxiv.org/abs/1706.03762v7").

Lemma arxiv_id_after_abs_witness : id (arxivPaper sample_entry) = lit "1706.03762v7".
Proof.
  apply (proj1 (arxiv_id_after_abs sample_entry) (lit "1706.03762v7") eq_refl).
  vm_compute; reflexivity.
Defined.

(** ** The aggregator over time *)

Lemma step_keeps_not_busy (st : Session) (e : Event) :
  busy st = false -> busy (step st e) = false.
Proof.
  intros H; destruct e; simpl; [exact H|].
  unfold finish; destruct (_ =? 0)%Z; simpl; [reflexivity|exact H].
Qed.

(** X11: the merged list only grows by appending, and once [busy] is
    false no later callback sets it back. *)
Theorem items_grow_busy_sticks (p q : list Event) :
  (exists suf, items (run (p ++ q)) = items (run p) ++ suf) /\
  (busy (run p) = false -> busy (run (p ++ q)) = false).
Proof.
  split.
  - exists (flat_map batch_of q). rewrite !run_items, flat_map_app; reflexivity.
  - induction q as [|e q IH] using rev_ind; intros H.
    + rewrite app_nil_r; exact H.
    + rewrite app_assoc, run_snoc. apply step_keeps_not_busy, IH, H.
Qed.

Lemma items_grow_busy_sticks_witness :
  busy (run sample_order) = false /\
  busy (run (sample_order ++ [Ev_then arxiv [tong_paper]])) = false.
Proof.
  assert (H : busy (run sample_order) = false) by (vm_compute; reflexivity).
  split; [exact H|exact (proj2 (items_grow_busy_sticks sample_order _) H)].
Defined.

Lemma merge3_settled_perm (oa od oc : option (list Paper)) (t : list Event) :
  merge3 (script arxiv oa) (script dblp od) (script crossref oc) t ->
  Permutation (settled t) [arxiv; dblp; crossref].
Proof.
  intros Ht. rewrite <- (scripts_settled oa od oc).
  apply flat_map_perm, merge3_perm, Ht.
Qed.



(** ** The placeholder *)

Lemma pick_run_snoc (t : list Event) (e : Event) : pick_run (t ++ [e]) = pick_step (pick_run t) e.
Proof. unfold pick_run; rewrite fold_left_app; reflexivity. Qed.

Lemma pick_run_session (t : list Event) : qp (pick_run t) = run t.
Proof.
  induction t as [|e t IH] using rev_ind; [reflexivity|].
  rewrite pick_run_snoc, run_snoc, <- IH.
  destruct e; simpl; [reflexivity|].
  destruct (pending (finish _) =? 0)%Z; reflexivity.
Qed.

Definition ends_settled (l : list Event) : Prop :=
  l = [] \/ exists l' s, l = l' ++ [Ev_finally s].

Lemma merge3_nil_inv (a b c : list Event) : merge3 a b c [] -> a = [] /\ b = [] /\ c = [].
Proof. intros H; inversion H; auto. Qed.

Lemma ends_settled_tail (e : Event) (a : list Event) :
  ends_settled (e :: a) -> ends_settled a /\ (a = [] -> exists s, e = Ev_finally s).
Proof.
  intros [H|[l' [s H]]]; [discriminate|].
  destruct l' as [|x l'].
  - injection H as -> ->. split; [left; reflexivity|]. intros _; exists s; reflexivity.
  - injection H as -> ->. split; [right; exists l', s; reflexivity|].
    intros E; destruct l'; discriminate.
Qed.

Lemma ends_settled_cons (e : Event) (t : list Event) :
  (t = [] -> exists s, e = Ev_finally s) -> ends_settled t -> ends_settled (e :: t).
Proof.
  intros He [->|[l' [s ->]]].
  - destruct (He eq_refl) as [s ->]. right; exists [], s; reflexivity.
  - right; exists (e :: l'), s; reflexivity.
Qed.

Lemma script_ends_settled (s : Source) (o : option (list Paper)) : ends_settled (script s o).
Proof.
  right; destruct o as [l|]; [exists [Ev_then s l], s|exists [], s]; reflexivity.
Qed.

Lemma merge3_ends_settled (a b c t : list Event) :
  merge3 a b c t -> ends_settled a -> ends_settled b -> ends_settled c -> ends_settled t.
Proof.
  intros H; induction H as [|e a b c t Hm IH|e a b c t Hm IH|e a b c t Hm IH]; intros Ha Hb Hc.
  - left; reflexivity.
  - destruct (ends_settled_tail e a Ha) as [Ha' He].
    apply ends_settled_cons; [|exact (IH Ha' Hb Hc)].
    intros ->. apply He. exact (proj1 (merge3_nil_inv _ _ _ Hm)).
  - destruct (ends_settled_tail e b Hb) as [Hb' He].
    apply ends_settled_cons; [|exact (IH Ha Hb' Hc)].
    intros ->. apply He. exact (proj1 (proj2 (merge3_nil_inv _ _ _ Hm))).
  - destruct (ends_settled_tail e c Hc) as [Hc' He].
    apply ends_settled_cons; [|exact (IH Ha Hb Hc')].
    intros ->. apply He. exact (proj2 (proj2 (merge3_nil_inv _ _ _ Hm))).
Qed.

(** X13: when a session completes, whatever the callback order, the
    placeholder reads ["No results found"] if the final list is empty and
    ["Select a paper"] otherwise. *)
Theorem final_placeholder (oa od oc : option (list Paper)) (t : list Event)
  (Ht : merge3 (script arxiv oa) (script dblp od) (script crossref oc) t) :
  qp (pick_run t) = run t /\
  placeholder (pick_run t) =
  match items (run t) with [] => lit "No results found" | _ => lit "Select a paper" end.
Proof.
  split; [apply pick_run_session|].
  assert (He : ends_settled t).
  { apply (merge3_ends_settled _ _ _ _ Ht); apply script_ends_settled. }
  destruct He as [E|[t' [s E]]].
  - subst t. destruct oa; inversion Ht.
  - pose proof (Permutation_length (merge3_settled_perm _ _ _ _ Ht)) as Hl.
    rewrite E, settled_app, length_app in Hl. simpl in Hl.
    destruct (run_counter t' ltac:(lia)) as [Hp _].
    assert (Hz : (pending (run t') - 1 =? 0)%Z = true)
      by (rewrite Hp; apply Z.eqb_eq; lia).
    rewrite E, pick_run_snoc, run_snoc. unfold pick_step, step.
    rewrite pick_run_session. unfold finish. rewrite Hz. cbn [pending items].
    rewrite Hz. reflexivity.
Qed.

Lemma final_placeholder_witness :
  placeholder (pick_run sample_order) = lit "Select a paper".
Proof.
  assert (Hm : merge3 (script arxiv None) (script dblp (Some five_papers))
                      (script crossref (Some seven_papers)) sample_order).
  { apply m3_a, m3_c, m3_c, m3_b, m3_b, m3_nil. }
  rewrite (proj2 (final_placeholder _ _ _ _ Hm)). vm_compute. reflexivity.
Defined.

(** ** QuickPick entries and the accepted record *)

Lemma startsWith_app_mono (a s pre : js) :
  startsWith s pre = true -> startsWith (a ++ s) (a ++ pre) = true.
Proof.
  intros H; induction a as [|c a IH]; simpl; [exact H|].
  rewrite Ascii.eqb_refl, IH; reflexivity.
Qed.

Lemma ends_with_app_l (l1 l2 sfx : js) :
  (exists pre, l2 = pre ++ sfx) -> exists pre, l1 ++ l2 = pre ++ sfx.
Proof.
  intros [pre ->]. exists (l1 ++ pre). apply app_assoc.
Qed.

(** X14: [toItems] keeps every paper, in order, as the [paper] of its
    entry (so the session's list of papers is exactly what the entries
    carry), labels each entry with the paper's title, and ends each detail
    with a bracketed display name that tells the three sources apart. *)
Theorem toItems_keeps_papers (ps : list Paper) :
  map paper (toItems ps) = ps /\
  map label (toItems ps) = map title ps /\
  Forall (fun it => exists pre,
            detail it = pre ++ lit " [" ++ source_tag (source (paper it)) ++ lit "]")
         (toItems ps) /\
  (forall s1 s2, source_tag s1 = source_tag s2 -> s1 = s2).
Proof.
  unfold toItems. split; [|split; [|split]].
  - rewrite map_map. apply map_id.
  - rewrite map_map. reflexivity.
  - apply Forall_forall. intros it Hin. apply in_map_iff in Hin as [p [<- _]].
    cbn [detail paper toItem].
    exists (join (lit ", ") (authors p) ++ lit " (" ++ year p ++ lit ")").
    rewrite <- !app_assoc. reflexivity.
  - intros [] []; vm_compute; congruence.
Qed.

(** X15: the text appended on accept starts on a new line with the
    [@article] header naming the key the confirmation message reports,
    and ends with the closing brace and a newline. *)
Theorem accept_inserted_text (sel : PickItem) :
  startsWith (inserted_text sel) (nl ++ lit "@article{" ++ reported_key sel ++ lit "," ++ nl) = true /\
  exists pre, inserted_text sel = pre ++ lit "}" ++ nl.
Proof.
  unfold inserted_text, reported_key, bibtex; cbv zeta.
  destruct (source (paper sel)); cbn [text key]; split;
    [ rewrite <- !app_assoc; repeat apply startsWith_app_mono; apply startsWith_app
    | repeat (first [exact (ex_intro _ [] eq_refl) | apply ends_with_app_l])
    | rewrite <- !app_assoc; repeat apply startsWith_app_mono; apply startsWith_app
    | repeat (first [exact (ex_intro _ [] eq_refl) | apply ends_with_app_l])
    | rewrite <- !app_assoc; repeat apply startsWith_app_mono; apply startsWith_app
    | repeat (first [exact (ex_intro _ [] eq_refl) | apply ends_with_app_l]) ].
Qed.
